(** * Binary Quest (src/src/App.tsx): round engine, validator and scorer

    A shallow embedding of the game logic of the [App] component and the
    properties of its specification.

    Modelling conventions.
    - A JavaScript string is the list of its UTF-16 code units ([N]).
    - The counters of [GameStats] start at the literal 0 and are only
      changed by integer additions and [Math.max], so they are exact
      integers ([Z]); doubles represent them exactly below 2^53.
    - A value produced by [parseInt] is a [number]: an integer or [NaN]
      (the high score is initialised by [parseInt]).
    - [Math.random()] is a rational [r] with [0 <= r < 1]; every double is
      a rational, and scaling by a power of two and [Math.floor] are exact.
    - React state is threaded explicitly: every handler is a function on
      [State], which also holds the [localStorage] slot of the high score
      and the callbacks scheduled with [setTimeout]. *)

From Stdlib Require Import ZArith NArith QArith Qround List Bool Lia String Ascii.
Import ListNotations.
Open Scope Z_scope.

(* ================================================================== *)
(** ** The JavaScript built-ins used by the component *)
(* ================================================================== *)

Module JS.

Definition code_unit := N.
Definition jsstring := list code_unit.

(** String literals of the source, as code units. *)
Definition str (s : string) : jsstring :=
  map N_of_ascii (list_ascii_of_string s).

(** The result of [parseInt]: an integer or [NaN]. *)
Inductive number : Type :=
| NaN
| Int (z : Z).

(** [a === b] on numbers: [NaN] is equal to nothing. *)
Definition strict_eq (a b : number) : bool :=
  match a, b with
  | Int x, Int y => x =? y
  | _, _ => false
  end.

(** [a > b] on numbers: false as soon as one side is [NaN]. *)
Definition gt (a b : number) : bool :=
  match a, b with
  | Int x, Int y => y <? x
  | _, _ => false
  end.

(** [Math.max(a, b)]: [NaN] as soon as one argument is [NaN]. *)
Definition math_max (a b : number) : number :=
  match a, b with
  | Int x, Int y => Int (Z.max x y)
  | _, _ => NaN
  end.

(** WhiteSpace and LineTerminator code units (ECMAScript), the set that
    [String.prototype.trim] and [parseInt] skip. *)
Definition is_white (c : code_unit) : bool :=
  ((9 <=? c) && (c <=? 13) || (c =? 32) || (c =? 160) || (c =? 5760)
   || (8192 <=? c) && (c <=? 8202) || (c =? 8232) || (c =? 8233)
   || (c =? 8239) || (c =? 8287) || (c =? 12288) || (c =? 65279))%N.

Fixpoint trimStart (s : jsstring) : jsstring :=
  match s with
  | [] => []
  | c :: t => if is_white c then trimStart t else s
  end.

Definition trimEnd (s : jsstring) : jsstring := rev (trimStart (rev s)).

Definition trim (s : jsstring) : jsstring := trimEnd (trimStart s).

(** [a === b] on strings. *)
Fixpoint str_eqb (a b : jsstring) : bool :=
  match a, b with
  | [], [] => true
  | x :: a', y :: b' => (x =? y)%N && str_eqb a' b'
  | _, _ => false
  end.

(** Truthiness of a string: the empty string is falsy. *)
Definition truthy (s : jsstring) : bool :=
  match s with [] => false | _ :: _ => true end.

(** The value of a code unit as a digit: 0-9, a-z, A-Z. *)
Definition digit_value (c : code_unit) : option Z :=
  if ((48 <=? c) && (c <=? 57))%N then Some (Z.of_N c - 48)
  else if ((97 <=? c) && (c <=? 122))%N then Some (Z.of_N c - 87)
  else if ((65 <=? c) && (c <=? 90))%N then Some (Z.of_N c - 55)
  else None.

Definition radix_digit (R : Z) (c : code_unit) : option Z :=
  match digit_value c with
  | Some d => if d <? R then Some d else None
  | None => None
  end.

(** The digits of the longest prefix of [s] made of radix-[R] digits. *)
Fixpoint digit_prefix (R : Z) (s : jsstring) : list Z :=
  match s with
  | [] => []
  | c :: t =>
      match radix_digit R c with
      | Some d => d :: digit_prefix R t
      | None => []
      end
  end.

(** The integer a list of radix-[R] digits denotes, most significant first. *)
Definition mathInt (R : Z) (ds : list Z) : Z :=
  fold_left (fun acc d => acc * R + d) ds 0.

Definition is_x (c : code_unit) : bool := ((c =? 120) || (c =? 88))%N.

(** The sign read by [parseInt] and the rest of the string. *)
Definition read_sign (s : jsstring) : Z * jsstring :=
  match s with
  | c :: t =>
      if (c =? 45)%N then (-1, t)
      else if (c =? 43)%N then (1, t)
      else (1, s)
  | [] => (1, s)
  end.

(** The radix [parseInt] reads with and the string left once a [0x] or
    [0X] prefix has been removed; [R] is the radix asked for, 0 when the
    argument is omitted. *)
Definition strip_prefix (R : Z) (s : jsstring) : Z * jsstring :=
  let stripPrefix := (R =? 0) || (R =? 16) in
  let R1 := if R =? 0 then 10 else R in
  match s with
  | c0 :: c1 :: t =>
      if stripPrefix && (c0 =? 48)%N && is_x c1 then (16, t) else (R1, s)
  | _ => (R1, s)
  end.

(** The radix argument as an integer: 0 when it is omitted. *)
Definition radix_arg (radix : option Z) : Z :=
  match radix with Some r => r | None => 0 end.

(** [parseInt(string, radix)]; [radix = None] is the omitted argument.
    Leading white space is skipped, a sign is read, a [0x]/[0X] prefix
    selects radix 16 when the radix is omitted or 16, and the longest
    prefix of digits is converted; no digit at all gives [NaN]. *)
Definition parseInt (s : jsstring) (radix : option Z) : number :=
  let '(sign, s2) := read_sign (trimStart s) in
  let R0 := radix_arg radix in
  if negb (R0 =? 0) && ((R0 <? 2) || (36 <? R0)) then NaN
  else
    let '(R, s3) := strip_prefix R0 s2 in
    match digit_prefix R s3 with
    | [] => NaN
    | ds => Int (sign * mathInt R ds)
    end.

(** The code unit of a digit: 0-9 then a-z. *)
Definition digit_char (d : Z) : code_unit :=
  if d <? 10 then Z.to_N (48 + d) else Z.to_N (87 + d).

(** The radix-[R] digits of a non-negative integer, by repeated division.
    The first argument bounds the number of divisions: a numeral has at
    most as many digits as the binary numeral of [n]. *)
Fixpoint digits_of (fuel : positive) (R n : Z) : jsstring :=
  match fuel with
  | xH => [digit_char n]
  | xO f | xI f =>
      if n <? R then [digit_char n]
      else digits_of f R (n / R) ++ [digit_char (n mod R)]
  end.

(** [n.toString(radix)] for an integer [n]. *)
Definition int_toString (n : Z) (R : Z) : jsstring :=
  match n with
  | Z0 => [48%N]
  | Zpos p => digits_of p R n
  | Zneg p => 45%N :: digits_of p R (Zpos p)
  end.

Definition toString (x : number) (R : Z) : jsstring :=
  match x with
  | NaN => str "NaN"
  | Int n => int_toString n R
  end.

(** [s.padStart(targetLength, c)] for a one-character filler. *)
Definition padStart (s : jsstring) (targetLength : Z) (c : code_unit) : jsstring :=
  let len := Z.of_nat (List.length s) in
  if targetLength <=? len then s
  else repeat c (Z.to_nat (targetLength - len)) ++ s.

(** [Math.floor] of a rational. *)
Definition math_floor (q : Q) : Z := Qfloor q.

End JS.

Import JS.

(* ================================================================== *)
(** ** The state of the component *)
(* ================================================================== *)

(** [type GameMode = 'binary-to-decimal' | 'decimal-to-binary' | 'mixed'] *)
Inductive GameMode : Type :=
| binary_to_decimal
| decimal_to_binary
| mixed.

(** The type of [currentMode]: the direction of the round on screen. *)
Inductive RoundMode : Type :=
| BinaryToDecimal
| DecimalToBinary.

(** [type Difficulty = 4 | 8 | 12] *)
Inductive Difficulty : Type :=
| D4
| D8
| D12.

Definition bits (d : Difficulty) : Z :=
  match d with D4 => 4 | D8 => 8 | D12 => 12 end.

(** [type GameState = 'menu' | 'playing' | 'paused' | 'gameOver'] *)
Inductive GameState : Type :=
| menu
| playing
| paused
| gameOver.

Inductive Feedback : Type :=
| correct
| incorrect.

(** [interface GameStats] *)
Record GameStats : Type := mkStats {
  score : Z;
  streak : Z;
  maxStreak : Z;
  totalCorrect : Z;
  totalAnswered : Z;
  highScore : number
}.

(** The hooks of [App], the [localStorage] entry [binaryGameHighScore]
    and the callbacks scheduled by [setTimeout] and not yet run, each with
    the [difficulty] and [gameMode] its [generateNewNumber] closed over. *)
Record State : Type := mkState {
  gameState : GameState;
  gameMode : GameMode;
  difficulty : Difficulty;
  timeLeft : Z;
  gameDuration : Z;
  currentNumber : Z;
  currentMode : RoundMode;
  userInput : jsstring;
  feedback : option Feedback;
  stats : GameStats;
  storage : option jsstring;
  timeouts : list (Difficulty * GameMode)
}.

Definition setGameState (g : GameState) (st : State) : State :=
  mkState g (gameMode st) (difficulty st) (timeLeft st) (gameDuration st)
    (currentNumber st) (currentMode st) (userInput st) (feedback st)
    (stats st) (storage st) (timeouts st).

Definition setGameMode (m : GameMode) (st : State) : State :=
  mkState (gameState st) m (difficulty st) (timeLeft st) (gameDuration st)
    (currentNumber st) (currentMode st) (userInput st) (feedback st)
    (stats st) (storage st) (timeouts st).

Definition setDifficulty (d : Difficulty) (st : State) : State :=
  mkState (gameState st) (gameMode st) d (timeLeft st) (gameDuration st)
    (currentNumber st) (currentMode st) (userInput st) (feedback st)
    (stats st) (storage st) (timeouts st).

Definition setTimeLeft (t : Z) (st : State) : State :=
  mkState (gameState st) (gameMode st) (difficulty st) t (gameDuration st)
    (currentNumber st) (currentMode st) (userInput st) (feedback st)
    (stats st) (storage st) (timeouts st).

Definition setCurrentNumber (n : Z) (st : State) : State :=
  mkState (gameState st) (gameMode st) (difficulty st) (timeLeft st)
    (gameDuration st) n (currentMode st) (userInput st) (feedback st)
    (stats st) (storage st) (timeouts st).

Definition setCurrentMode (m : RoundMode) (st : State) : State :=
  mkState (gameState st) (gameMode st) (difficulty st) (timeLeft st)
    (gameDuration st) (currentNumber st) m (userInput st) (feedback st)
    (stats st) (storage st) (timeouts st).

Definition setUserInput (s : jsstring) (st : State) : State :=
  mkState (gameState st) (gameMode st) (difficulty st) (timeLeft st)
    (gameDuration st) (currentNumber st) (currentMode st) s (feedback st)
    (stats st) (storage st) (timeouts st).

Definition setFeedback (f : option Feedback) (st : State) : State :=
  mkState (gameState st) (gameMode st) (difficulty st) (timeLeft st)
    (gameDuration st) (currentNumber st) (currentMode st) (userInput st) f
    (stats st) (storage st) (timeouts st).

(** [setStats(prev => f(prev))] *)
Definition setStats (f : GameStats -> GameStats) (st : State) : State :=
  mkState (gameState st) (gameMode st) (difficulty st) (timeLeft st)
    (gameDuration st) (currentNumber st) (currentMode st) (userInput st)
    (feedback st) (f (stats st)) (storage st) (timeouts st).

(** [localStorage.setItem('binaryGameHighScore', s)] *)
Definition setItem (s : jsstring) (st : State) : State :=
  mkState (gameState st) (gameMode st) (difficulty st) (timeLeft st)
    (gameDuration st) (currentNumber st) (currentMode st) (userInput st)
    (feedback st) (stats st) (Some s) (timeouts st).

Definition setTimeouts (l : list (Difficulty * GameMode)) (st : State) : State :=
  mkState (gameState st) (gameMode st) (difficulty st) (timeLeft st)
    (gameDuration st) (currentNumber st) (currentMode st) (userInput st)
    (feedback st) (stats st) (storage st) l.

(** [localStorage.getItem('binaryGameHighScore') || '0'] *)
Definition storedOrDefault (stored : option jsstring) : jsstring :=
  match stored with
  | Some s => if truthy s then s else str "0"
  | None => str "0"
  end.

(** The high score read at construction:
    [parseInt(localStorage.getItem('binaryGameHighScore') || '0')]. *)
Definition loadHighScore (stored : option jsstring) : number :=
  parseInt (storedOrDefault stored) None.

(** The initial values of the hooks (lines 18-36). *)
Definition initialStats (stored : option jsstring) : GameStats :=
  mkStats 0 0 0 0 0 (loadHighScore stored).

Definition initialState (stored : option jsstring) : State :=
  mkState menu mixed D8 30 30 0 BinaryToDecimal [] None
    (initialStats stored) stored [].

(* ================================================================== *)
(** ** Round generator *)
(* ================================================================== *)

(** [const maxValue = Math.pow(2, difficulty) - 1] *)
Definition maxValue (d : Difficulty) : Z := 2 ^ bits d - 1.

(** [Math.floor(Math.random() * (maxValue + 1))], [r] being the draw. *)
Definition newNumber (d : Difficulty) (r : Q) : Z :=
  math_floor (r * inject_Z (maxValue d + 1)).

(** The direction of the next round; [r] is the second draw, compared
    with [0.5] in mixed mode only. *)
Definition newMode (m : GameMode) (r : Q) : RoundMode :=
  match m with
  | mixed => if Qle_bool r (1 # 2) then DecimalToBinary else BinaryToDecimal
  | binary_to_decimal => BinaryToDecimal
  | decimal_to_binary => DecimalToBinary
  end.

(** [generateNewNumber] as closed over [difficulty] and [gameMode]. *)
Definition generateNewNumberWith (d : Difficulty) (m : GameMode)
    (r1 r2 : Q) (st : State) : State :=
  setCurrentMode (newMode m r2) (setCurrentNumber (newNumber d r1) st).

Definition generateNewNumber (r1 r2 : Q) (st : State) : State :=
  generateNewNumberWith (difficulty st) (gameMode st) r1 r2 st.

(** [formatBinary]: [num.toString(2).padStart(difficulty, '0')] *)
Definition formatBinary (d : Difficulty) (num : Z) : jsstring :=
  padStart (int_toString num 2) (bits d) 48%N.

(* ================================================================== *)
(** ** Answer validator and scorer *)
(* ================================================================== *)

(** [userInput.replace(/[^01]/g, '')] *)
Definition replaceNon01 (s : jsstring) : jsstring :=
  filter (fun c => ((c =? 48) || (c =? 49))%N) s.

(** The value of [isCorrect] computed by [checkAnswer] (lines 57-64). *)
Definition isCorrect (mode : RoundMode) (input : jsstring) (num : Z) : bool :=
  match mode with
  | BinaryToDecimal => strict_eq (parseInt input None) (Int num)
  | DecimalToBinary =>
      let binaryInput := replaceNon01 input in
      strict_eq (parseInt binaryInput (Some 2)) (Int num)
  end.

(** The updater passed to [setStats] by [checkAnswer] (lines 68-78). *)
Definition applyResult (isCorrect : bool) (prev : GameStats) : GameStats :=
  let newStats :=
    mkStats (score prev + (if isCorrect then 10 + streak prev * 2 else 0))
            (if isCorrect then streak prev + 1 else 0)
            (maxStreak prev)
            (totalCorrect prev + (if isCorrect then 1 else 0))
            (totalAnswered prev + 1)
            (highScore prev) in
  mkStats (score newStats) (streak newStats)
          (Z.max (maxStreak newStats) (streak newStats))
          (totalCorrect newStats) (totalAnswered newStats)
          (highScore newStats).

(** [checkAnswer] (lines 54-85). *)
Definition checkAnswer (st : State) : State :=
  if negb (truthy (trim (userInput st))) then st
  else
    let c := isCorrect (currentMode st) (userInput st) (currentNumber st) in
    let st1 := setFeedback (Some (if c then correct else incorrect)) st in
    let st2 := setStats (applyResult c) st1 in
    setTimeouts (timeouts st2 ++ [(difficulty st, gameMode st)]) st2.

(** The callback of [setTimeout] in [checkAnswer] (lines 80-84): the
    oldest scheduled callback runs. *)
Definition feedbackTimeout (r1 r2 : Q) (st : State) : State :=
  match timeouts st with
  | [] => st
  | (d, m) :: rest =>
      generateNewNumberWith d m r1 r2
        (setUserInput [] (setFeedback None (setTimeouts rest st)))
  end.

(* ================================================================== *)
(** ** Session state machine *)
(* ================================================================== *)

(** The updater passed to [setStats] by [startGame] (lines 90-96). *)
Definition resetStats (prev : GameStats) : GameStats :=
  mkStats 0 0 (maxStreak prev) 0 0 (highScore prev).

(** [startGame] (lines 87-98). *)
Definition startGame (r1 r2 : Q) (st : State) : State :=
  generateNewNumber r1 r2
    (setStats resetStats (setTimeLeft (gameDuration st) (setGameState playing st))).

Definition withHighScore (h : number) (prev : GameStats) : GameStats :=
  mkStats (score prev) (streak prev) (maxStreak prev) (totalCorrect prev)
          (totalAnswered prev) h.

(** [endGame] (lines 100-107). *)
Definition endGame (st : State) : State :=
  let st1 := setGameState gameOver st in
  let newHighScore := math_max (Int (score (stats st))) (highScore (stats st)) in
  if gt newHighScore (highScore (stats st)) then
    setStats (withHighScore newHighScore) (setItem (toString newHighScore 10) st1)
  else st1.

(** [resetGame] (lines 109-113). *)
Definition resetGame (st : State) : State :=
  setFeedback None (setUserInput [] (setGameState menu st)).

Definition is_playing (st : State) : bool :=
  match gameState st with playing => true | _ => false end.

(** One period of the interval of the timer effect (lines 116-125): the
    countdown is decremented, and the effect then ends the game at zero. *)
Definition tick (st : State) : State :=
  if is_playing st && (0 <? timeLeft st) then
    let st1 := setTimeLeft (timeLeft st - 1) st in
    if (timeLeft st1 =? 0) then endGame st1 else st1
  else if (timeLeft st =? 0) && is_playing st then endGame st
  else st.

(** [handleKeyPress] (lines 129-133); [key] is [e.key]. *)
Definition handleKeyPress (key : jsstring) (st : State) : State :=
  if str_eqb key (str "Enter")
     && is_playing st && truthy (trim (userInput st))
  then checkAnswer st
  else st.

(** The [disabled] attribute of the submit button (line 373). *)
Definition submitDisabled (st : State) : bool :=
  negb (truthy (trim (userInput st)))
  || match feedback st with Some _ => true | None => false end.

(** A click on the submit button (lines 371-374), which the menu and the
    game-over screens do not render. *)
Definition clickSubmit (st : State) : State :=
  match gameState st with
  | menu | gameOver => st
  | playing | paused => if submitDisabled st then st else checkAnswer st
  end.

(** [onChange] of the answer box (line 359), which is rendered while
    playing and disabled while feedback is shown. *)
Definition typeInput (s : jsstring) (st : State) : State :=
  match gameState st, feedback st with
  | (playing | paused), None => setUserInput s st
  | _, _ => st
  end.

(** What can happen to the component: the controls of the screen being
    rendered, a key press, and the two timers. *)
Inductive Event : Type :=
| SelectMode (m : GameMode)
| SelectDifficulty (d : Difficulty)
| ClickStart (r1 r2 : Q)
| ClickPlayAgain (r1 r2 : Q)
| ClickBackToMenu
| TypeInput (s : jsstring)
| ClickSubmit
| KeyPress (key : jsstring)
| FeedbackTimeout (r1 r2 : Q)
| Tick.

Definition is_menu (st : State) : bool :=
  match gameState st with menu => true | _ => false end.

Definition is_gameOver (st : State) : bool :=
  match gameState st with gameOver => true | _ => false end.

Definition step (e : Event) (st : State) : State :=
  match e with
  | SelectMode m => if is_menu st then setGameMode m st else st
  | SelectDifficulty d => if is_menu st then setDifficulty d st else st
  | ClickStart r1 r2 => if is_menu st then startGame r1 r2 st else st
  | ClickPlayAgain r1 r2 => if is_gameOver st then startGame r1 r2 st else st
  | ClickBackToMenu => if is_gameOver st then resetGame st else st
  | TypeInput s => typeInput s st
  | ClickSubmit => clickSubmit st
  | KeyPress key => handleKeyPress key st
  | FeedbackTimeout r1 r2 => feedbackTimeout r1 r2 st
  | Tick => tick st
  end.

(** The state after a sequence of events, the first event first. *)
Definition run (es : list Event) (st : State) : State :=
  fold_left (fun s e => step e s) es st.

(* ================================================================== *)
(** ** Definitions used to state the properties *)
(* ================================================================== *)

(** A state the component can be in: the state after some events, from
    the initial state for some content of the storage. *)
Definition reachable (st : State) : Prop :=
  exists stored es, st = run es (initialState stored).

(** The digits of [digits_of] as numbers. *)
Fixpoint nums (fuel : positive) (R n : Z) : list Z :=
  match fuel with
  | xH => [n]
  | xO f | xI f =>
      if n <? R then [n] else nums f R (n / R) ++ [n mod R]
  end.

(** The digits of the numeral of the absolute value of [n]. *)
Definition int_nums (n R : Z) : list Z :=
  match n with
  | Z0 => [0]
  | Zpos p => nums p R n
  | Zneg p => nums p R (Zpos p)
  end.

(** [d] is a digit of radix [R]. *)
Definition in_radix (R d : Z) : Prop := 0 <= d < R.

(** The radix a call reads a plain numeral with: the radix asked for, or
    10 when it is omitted. Radix 16 is left out, where [0x] is a prefix. *)
Definition reads_with (radix : option Z) (R : Z) : Prop :=
  (radix = Some R /\ 2 <= R <= 36 /\ R <> 16) \/ (radix = None /\ R = 10).

Definition not_white (c : code_unit) : bool := negb (is_white c).

Definition is_decimal (c : code_unit) : bool := ((48 <=? c) && (c <=? 57))%N.

(** The value of a decimal digit. *)
Definition decimal_digit_value (c : code_unit) : Z := Z.of_N c - 48.

(** The number a string of decimal digits denotes. *)
Definition decimal_value (ds : jsstring) : Z :=
  fold_left (fun acc c => acc * 10 + decimal_digit_value c) ds 0.

(** Reading a base-10 integer with no tolerance beyond trimming, as the
    specification words it: once the white space at both ends is removed,
    the whole string is an optional sign and one or more decimal digits. *)
Definition parse_base10_strict (raw : jsstring) : option Z :=
  let '(sign, body) := read_sign (trim raw) in
  if truthy body && forallb is_decimal body
  then Some (sign * decimal_value body)
  else None.

(** The string, after leading white space and an optional sign, begins
    with [0x] or [0X]. *)
Definition hex_prefixed (raw : jsstring) : bool :=
  match snd (read_sign (trimStart raw)) with
  | c0 :: c1 :: _ => (c0 =? 48)%N && is_x c1
  | _ => false
  end.

Definition starts_with_decimal (s : jsstring) : bool :=
  match s with c :: _ => is_decimal c | [] => false end.

(** [raw] begins with a base-10 numeral of value [v]: white space, an
    optional sign, a non-empty run of decimal digits that is not followed
    by another digit, and anything after it. *)
Definition reads_decimal (raw : jsstring) (v : Z) : Prop :=
  exists ws sgn ds rest,
    raw = ws ++ sgn ++ ds ++ rest /\
    forallb is_white ws = true /\
    (sgn = [] /\ v = decimal_value ds \/
     sgn = [43%N] /\ v = decimal_value ds \/
     sgn = [45%N] /\ v = - decimal_value ds) /\
    ds <> [] /\ forallb is_decimal ds = true /\
    starts_with_decimal rest = false.

(** The streaks after each answer of a run of answers. *)
Fixpoint streaks (s : Z) (answers : list bool) : list Z :=
  match answers with
  | [] => []
  | c :: rest =>
      let s' := if c then s + 1 else 0 in
      s' :: streaks s' rest
  end.

Definition applyResults (answers : list bool) (s : GameStats) : GameStats :=
  fold_left (fun acc c => applyResult c acc) answers s.

(** A session about to end with the given final score, the stored high
    score being 50. *)
Definition session_ending (final : Z) : State :=
  setStats (fun _ => mkStats final 0 3 7 9 (Int 50))
    (setTimeLeft 0 (setGameState playing (initialState (Some (str "50"))))).

(** The in-memory high score is what the storage reads back to. *)
Definition in_sync (st : State) : Prop :=
  loadHighScore (storage st) = highScore (stats st).

(* ================================================================== *)
(** ** Values computed for the screens *)
(* ================================================================== *)

(** One cell of [getBinaryDisplay] (lines 138-152): its [key], the bit it
    shows and whether it has the lit style, chosen by [bit === '1']. *)
Record BitCell : Type := mkCell {
  cell_key : nat;
  cell_bit : code_unit;
  cell_lit : bool
}.

(** [binary.split('').map((bit, index) => ...)] from index [i] on. *)
Fixpoint bitCells (i : nat) (binary : jsstring) : list BitCell :=
  match binary with
  | [] => []
  | bit :: rest => mkCell i bit (bit =? 49)%N :: bitCells (S i) rest
  end.

(** [getBinaryDisplay] (lines 138-152). *)
Definition getBinaryDisplay (st : State) : list BitCell :=
  bitCells 0 (formatBinary (difficulty st) (currentNumber st)).

(** The condition of the "new high score" banner of the game-over
    screen (line 256): [stats.score === stats.highScore && stats.score > 0]. *)
Definition newHighScoreBanner (s : GameStats) : bool :=
  strict_eq (Int (score s)) (highScore s) && gt (Int (score s)) (Int 0).

(** The condition of the streak line under the feedback (line 385):
    [feedback === 'correct' && stats.streak > 1]. *)
Definition streakLineShown (st : State) : bool :=
  match feedback st with
  | Some correct => 1 <? streak (stats st)
  | _ => false
  end.

(** The points printed in the streak line (line 387):
    [10 + (stats.streak - 1) * 2]. *)
Definition streakLinePoints (s : GameStats) : Z := 10 + (streak s - 1) * 2.

(* ================================================================== *)
(** ** Definitions used to state the properties of runs *)
(* ================================================================== *)

(** The events that run [startGame]. *)
Definition is_start (e : Event) : bool :=
  match e with
  | ClickStart _ _ | ClickPlayAgain _ _ => true
  | _ => false
  end.

(** A draw of [Math.random()]. *)
Definition valid_draw (r : Q) : Prop := (0 <= r)%Q /\ (r < 1)%Q.

(** An event whose draws are draws of [Math.random()]. *)
Definition valid_event (e : Event) : Prop :=
  match e with
  | ClickStart r1 r2 | ClickPlayAgain r1 r2 | FeedbackTimeout r1 r2 =>
      valid_draw r1 /\ valid_draw r2
  | _ => True
  end.

(** The value of a binary digit. *)
Definition bit_of (c : code_unit) : Z := if (c =? 49)%N then 1 else 0.

(** The number a string of binary digits denotes; a character other
    than '1' counts as 0. *)
Definition binary_value (s : jsstring) : Z :=
  fold_left (fun acc c => acc * 2 + (if (c =? 49)%N then 1 else 0)) s 0.

(** The number the lit cells of a row denote, a lit cell being a 1. *)
Definition cells_value (cells : list BitCell) : Z :=
  fold_left (fun acc c => acc * 2 + (if cell_lit c then 1 else 0)) cells 0.

(* ================================================================== *)
(** ** Scorer *)
(* ================================================================== *)

(** C1. The update of the statistics on a submission: on a correct answer
    [totalAnswered], [totalCorrect] and [streak] grow by one and [score] by
    10 plus twice the streak before the answer; on an incorrect answer
    [totalAnswered] grows by one, [streak] becomes 0 and [score] is
    unchanged; in both cases the new [maxStreak] is the maximum of the old
    one and the new streak. *)
Theorem applyResult_update :
  forall (prev : GameStats) (c : bool),
    let s := applyResult c prev in
    totalAnswered s = totalAnswered prev + 1 /\
    totalCorrect s = (if c then totalCorrect prev + 1 else totalCorrect prev) /\
    streak s = (if c then streak prev + 1 else 0) /\
    score s = (if c then score prev + (10 + 2 * streak prev) else score prev) /\
    maxStreak s = Z.max (maxStreak prev) (streak s).
Proof.
  intros prev c s; subst s.
  destruct c; cbn [applyResult totalAnswered totalCorrect streak score maxStreak];
    repeat split; lia.
Qed.

(** A submission that is not blank updates the statistics with
    [applyResult] at the verdict of the validator. *)
Lemma checkAnswer_stats :
  forall st,
    truthy (trim (userInput st)) = true ->
    stats (checkAnswer st)
    = applyResult (isCorrect (currentMode st) (userInput st) (currentNumber st))
        (stats st).
Proof.
  intros st H. unfold checkAnswer. rewrite H. reflexivity.
Qed.

(** A blank submission does nothing. *)
Lemma checkAnswer_blank :
  forall st, truthy (trim (userInput st)) = false -> checkAnswer st = st.
Proof.
  intros st H. unfold checkAnswer. rewrite H. reflexivity.
Qed.

(** C10. The per-answer update neither writes nor reads [highScore]: the
    field is unchanged, the update commutes with any change of the field,
    and a whole submission leaves the field and the storage as they were. *)
Theorem applyResult_highScore_frame :
  forall (prev : GameStats) (c : bool) (h : number) (st : State),
    highScore (applyResult c prev) = highScore prev /\
    applyResult c (withHighScore h prev) = withHighScore h (applyResult c prev) /\
    highScore (stats (checkAnswer st)) = highScore (stats st) /\
    storage (checkAnswer st) = storage st.
Proof.
  intros prev c h st. repeat split.
  - unfold checkAnswer. destruct (truthy (trim (userInput st))); reflexivity.
  - unfold checkAnswer. destruct (truthy (trim (userInput st))); reflexivity.
Qed.

(* ================================================================== *)
(** ** Round generator *)
(* ================================================================== *)

Lemma maxValue_succ_pos : forall d, 0 < maxValue d + 1.
Proof. intros []; vm_compute; reflexivity. Qed.

Lemma newNumber_range :
  forall d (r : Q), (0 <= r)%Q -> (r < 1)%Q -> 0 <= newNumber d r <= maxValue d.
Proof.
  intros d r H0 H1. unfold newNumber, math_floor.
  pose proof (maxValue_succ_pos d) as Hm.
  set (m := maxValue d + 1) in *.
  assert (Hq : (inject_Z 0 < inject_Z m)%Q) by (rewrite <- Zlt_Qlt; exact Hm).
  split.
  - rewrite <- (Qfloor_Z 0).
    apply Qfloor_resp_le. apply Qmult_le_0_compat; [exact H0 | apply Qlt_le_weak, Hq].
  - enough (Qfloor (r * inject_Z m) < m) by lia.
    rewrite Zlt_Qlt.
    apply Qle_lt_trans with (r * inject_Z m)%Q; [apply Qfloor_le |].
    apply Qlt_le_trans with (1 * inject_Z m)%Q.
    + apply Qmult_lt_compat_r; assumption.
    + rewrite Qmult_1_l. apply Qle_refl.
Qed.

(** C2. For every difficulty (bit width 4, 8 or 12) and every draw of
    [Math.random()], a rational in [0, 1), the number the round generator
    stores is in the inclusive range from 0 to 2^bitWidth - 1; this holds
    for the generator of the current render and for the one a scheduled
    callback closed over. *)
Theorem generateNewNumber_in_range :
  forall (d : Difficulty) (m : GameMode) (st : State) (r1 r2 : Q),
    (0 <= r1)%Q -> (r1 < 1)%Q ->
    0 <= currentNumber (generateNewNumberWith d m r1 r2 st) <= 2 ^ bits d - 1 /\
    0 <= currentNumber (generateNewNumber r1 r2 st)
      <= 2 ^ bits (difficulty st) - 1.
Proof.
  intros d m st r1 r2 H0 H1. split.
  - change (currentNumber (generateNewNumberWith d m r1 r2 st))
      with (newNumber d r1).
    apply (newNumber_range d r1 H0 H1).
  - change (currentNumber (generateNewNumber r1 r2 st))
      with (newNumber (difficulty st) r1).
    apply (newNumber_range (difficulty st) r1 H0 H1).
Qed.

Lemma generateNewNumber_in_range_witness :
  0 <= currentNumber
         (generateNewNumberWith D12 mixed (4095 # 4096) (3 # 4) (initialState None))
    <= 2 ^ bits D12 - 1.
Proof.
  apply (generateNewNumber_in_range D12 mixed (initialState None)
           (4095 # 4096) (3 # 4)).
  - vm_compute. discriminate.
  - vm_compute. reflexivity.
Defined.

(** The bit widths are 4, 8 and 12, and the generator is onto the range:
    the draw [v / 2^bitWidth] gives [v]. *)
Lemma newNumber_onto :
  forall d v, 0 <= v <= maxValue d ->
    newNumber d (v # Z.to_pos (maxValue d + 1)) = v.
Proof.
  intros d v Hv. unfold newNumber, math_floor.
  pose proof (maxValue_succ_pos d) as Hm.
  assert (E : (v # Z.to_pos (maxValue d + 1)) * inject_Z (maxValue d + 1) == inject_Z v).
  { clear. destruct d; unfold Qeq; cbn; lia. }
  rewrite (Qfloor_comp _ _ E). apply Qfloor_Z.
Qed.

(* ================================================================== *)
(** ** Numerals: [toString] and [parseInt] *)
(* ================================================================== *)

Lemma mathInt_snoc :
  forall R ds d, mathInt R (ds ++ [d]) = mathInt R ds * R + d.
Proof. intros R ds d. unfold mathInt. rewrite fold_left_app. reflexivity. Qed.

Lemma mathInt_zeros :
  forall R k ds, mathInt R (repeat 0 k ++ ds) = mathInt R ds.
Proof.
  intros R k ds. unfold mathInt. rewrite fold_left_app. f_equal.
  induction k as [|k IH]; [reflexivity | exact IH].
Qed.

Lemma digits_of_nums :
  forall fuel R n, digits_of fuel R n = map digit_char (nums fuel R n).
Proof.
  induction fuel as [f IH | f IH |]; intros R n; cbn [digits_of nums];
    try reflexivity;
    (destruct (n <? R); [reflexivity |]);
    rewrite map_app, IH; reflexivity.
Qed.

Lemma nums_not_nil : forall fuel R n, nums fuel R n <> [].
Proof.
  intros fuel R n. destruct fuel; cbn [nums]; try discriminate;
    (destruct (n <? R); [discriminate |]);
    intros H; apply app_eq_nil in H; destruct H; discriminate.
Qed.

(** With a bound at least [n], [nums] gives the radix-[R] numeral of [n]:
    digits in range whose value is [n]. *)
Lemma nums_spec :
  forall fuel R n, 2 <= R -> 0 <= n <= Z.pos fuel ->
    Forall (in_radix R) (nums fuel R n) /\ mathInt R (nums fuel R n) = n.
Proof.
  assert (Hdiv : forall f R n, 2 <= R -> 0 <= n <= 2 * Z.pos f + 1 ->
                   0 <= n / R <= Z.pos f).
  { intros f R n HR Hn. split; [apply Z.div_pos; lia |].
    apply Z.le_trans with (n / 2).
    - apply Z.div_le_compat_l; lia.
    - enough (n / 2 < Z.pos f + 1) by lia.
      apply Z.div_lt_upper_bound; lia. }
  assert (Hstep : forall f R n, 2 <= R -> 0 <= n ->
            (forall m, 0 <= m <= Z.pos f ->
               Forall (in_radix R) (nums f R m) /\ mathInt R (nums f R m) = m) ->
            0 <= n / R <= Z.pos f ->
            Forall (in_radix R)
              (if n <? R then [n] else nums f R (n / R) ++ [n mod R]) /\
            mathInt R (if n <? R then [n] else nums f R (n / R) ++ [n mod R]) = n).
  { intros f R n HR Hn IH Hq. destruct (Z.ltb_spec n R) as [Hlt | Hge].
    - split; [repeat constructor; lia | unfold mathInt; cbn; lia].
    - destruct (IH (n / R) Hq) as [Hall Hval]. split.
      + apply Forall_app; split; [exact Hall |].
        repeat constructor; apply Z.mod_pos_bound; lia.
      + rewrite mathInt_snoc, Hval.
        pose proof (Z.div_mod n R ltac:(lia)). lia. }
  induction fuel as [f IH | f IH |]; intros R n HR Hn; cbn [nums].
  - apply Hstep; try lia; [intros m Hm; apply IH; assumption |].
    apply Hdiv; lia.
  - apply Hstep; try lia; [intros m Hm; apply IH; assumption |].
    apply Hdiv; lia.
  - split; [repeat constructor; lia | unfold mathInt; cbn; lia].
Qed.

Lemma digit_char_decimal :
  forall d, 0 <= d < 10 -> digit_char d = Z.to_N (48 + d).
Proof.
  intros d Hd. unfold digit_char. destruct (Z.ltb_spec d 10); [reflexivity | lia].
Qed.

Lemma radix_digit_char :
  forall R d, R <= 36 -> in_radix R d -> radix_digit R (digit_char d) = Some d.
Proof.
  intros R d HR [Hd0 HdR]. unfold radix_digit, digit_value, digit_char.
  destruct (Z.ltb_spec d 10) as [Hlt | Hge].
  - destruct (N.leb_spec 48 (Z.to_N (48 + d))); [| lia].
    destruct (N.leb_spec (Z.to_N (48 + d)) 57); [| lia]. cbn [andb].
    replace (Z.of_N (Z.to_N (48 + d)) - 48) with d by lia.
    destruct (Z.ltb_spec d R); [reflexivity | lia].
  - destruct (N.leb_spec 48 (Z.to_N (87 + d))); [| lia].
    destruct (N.leb_spec (Z.to_N (87 + d)) 57); [lia |]. cbn [andb].
    destruct (N.leb_spec 97 (Z.to_N (87 + d))); [| lia].
    destruct (N.leb_spec (Z.to_N (87 + d)) 122); [| lia]. cbn [andb].
    replace (Z.of_N (Z.to_N (87 + d)) - 87) with d by lia.
    destruct (Z.ltb_spec d R); [reflexivity | lia].
Qed.

Lemma digit_prefix_chars :
  forall R ds, R <= 36 -> Forall (in_radix R) ds ->
    digit_prefix R (map digit_char ds) = ds.
Proof.
  intros R ds HR Hall. induction Hall as [| d ds Hd _ IH]; [reflexivity |].
  cbn [map digit_prefix]. rewrite (radix_digit_char R d HR Hd), IH. reflexivity.
Qed.

(** The code unit of a digit is a digit or a lower-case letter. *)
Lemma digit_char_range :
  forall R d, R <= 36 -> in_radix R d ->
    (48 <= digit_char d <= 57 \/ 97 <= digit_char d <= 122)%N.
Proof.
  intros R d HR [Hd0 HdR]. unfold digit_char.
  destruct (Z.ltb_spec d 10); lia.
Qed.

Lemma is_white_false :
  forall c, (33 <= c < 160)%N -> is_white c = false.
Proof.
  intros c Hc. unfold is_white.
  repeat match goal with
         | |- context [(?a <=? ?b)%N] => destruct (N.leb_spec a b); try lia
         | |- context [(?a =? ?b)%N] => destruct (N.eqb_spec a b); try lia
         end; reflexivity.
Qed.

(** [parseInt] step by step: once the sign and the radix are known, the
    result is read off the longest prefix of digits. *)
Lemma parseInt_steps :
  forall s radix sign s2 R s3,
    read_sign (trimStart s) = (sign, s2) ->
    negb (radix_arg radix =? 0)
      && ((radix_arg radix <? 2) || (36 <? radix_arg radix)) = false ->
    strip_prefix (radix_arg radix) s2 = (R, s3) ->
    parseInt s radix
    = match digit_prefix R s3 with
      | [] => NaN
      | ds => Int (sign * mathInt R ds)
      end.
Proof.
  intros s radix sign s2 R s3 Hsign Hradix Hstrip.
  unfold parseInt. rewrite Hsign. cbv zeta.
  rewrite Hradix, Hstrip. reflexivity.
Qed.

Lemma reads_with_radix_ok :
  forall radix R, reads_with radix R ->
    negb (radix_arg radix =? 0)
      && ((radix_arg radix <? 2) || (36 <? radix_arg radix)) = false.
Proof.
  intros radix R [(-> & HR & _) | (-> & _)]; cbn [radix_arg]; [| reflexivity].
  destruct (Z.ltb_spec R 2); [lia |]. destruct (Z.ltb_spec 36 R); [lia |].
  apply andb_false_r.
Qed.

Lemma is_x_digit_char :
  forall d, 0 <= d < 10 -> is_x (digit_char d) = false.
Proof.
  intros d Hd. rewrite (digit_char_decimal d Hd). unfold is_x.
  destruct (N.eqb_spec (Z.to_N (48 + d)) 120); [lia |].
  destruct (N.eqb_spec (Z.to_N (48 + d)) 88); [lia | reflexivity].
Qed.

Lemma strip_prefix_numeral :
  forall radix R ds, reads_with radix R -> Forall (in_radix R) ds ->
    strip_prefix (radix_arg radix) (map digit_char ds) = (R, map digit_char ds).
Proof.
  intros radix R ds [(-> & HR & H16) | (-> & ->)] Hall; cbn [radix_arg];
    unfold strip_prefix.
  - destruct (Z.eqb_spec R 0); [lia |]. destruct (Z.eqb_spec R 16); [lia |].
    cbn [orb andb]. destruct (map digit_char ds) as [| c0 [| c1 t]]; reflexivity.
  - cbn [Z.eqb orb]. destruct ds as [| d0 [| d1 t]]; try reflexivity.
    cbn [map]. inversion Hall as [| ? ? _ Ht]; subst.
    inversion Ht as [| ? ? Hd1 _]; subst.
    rewrite (is_x_digit_char d1 Hd1), andb_false_r. reflexivity.
Qed.

Lemma digit_char_not_white :
  forall R d, R <= 36 -> in_radix R d -> is_white (digit_char d) = false.
Proof.
  intros R d HR Hd. apply is_white_false.
  destruct (digit_char_range R d HR Hd); lia.
Qed.

Lemma read_sign_digit :
  forall R d t, R <= 36 -> in_radix R d ->
    read_sign (digit_char d :: t) = (1, digit_char d :: t).
Proof.
  intros R d t HR Hd. unfold read_sign.
  pose proof (digit_char_range R d HR Hd) as Hc.
  destruct (N.eqb_spec (digit_char d) 45); [lia |].
  destruct (N.eqb_spec (digit_char d) 43); [lia | reflexivity].
Qed.

(** [parseInt] reads back a numeral: a non-empty string of radix-[R]
    digits parses to the number the digits denote. *)
Lemma parseInt_numeral :
  forall radix R ds, reads_with radix R -> R <= 36 ->
    ds <> [] -> Forall (in_radix R) ds ->
    parseInt (map digit_char ds) radix = Int (mathInt R ds).
Proof.
  intros radix R ds Hr HR Hne Hall.
  rewrite (parseInt_steps _ radix 1 (map digit_char ds) R (map digit_char ds)).
  - rewrite (digit_prefix_chars R ds HR Hall).
    destruct ds as [| d t]; [contradiction |].
    f_equal. destruct (mathInt R (d :: t)); reflexivity.
  - destruct ds as [| d t]; [contradiction |].
    inversion Hall as [| ? ? Hd _]; subst. cbn [map trimStart].
    rewrite (digit_char_not_white R d HR Hd).
    apply (read_sign_digit R d _ HR Hd).
  - apply (reads_with_radix_ok radix R Hr).
  - apply (strip_prefix_numeral radix R ds Hr Hall).
Qed.

(** The same for a numeral with a minus sign, in the default radix. *)
Lemma parseInt_negative_numeral :
  forall ds, ds <> [] -> Forall (in_radix 10) ds ->
    parseInt (45%N :: map digit_char ds) None = Int (- mathInt 10 ds).
Proof.
  intros ds Hne Hall.
  rewrite (parseInt_steps _ None (-1) (map digit_char ds) 10 (map digit_char ds)).
  - rewrite (digit_prefix_chars 10 ds ltac:(lia) Hall).
    destruct ds as [| d t]; [contradiction |].
    f_equal; lia.
  - reflexivity.
  - reflexivity.
  - apply (strip_prefix_numeral None 10 ds); [right; split; reflexivity | exact Hall].
Qed.

Lemma int_toString_nonneg :
  forall n R, 0 <= n -> int_toString n R = map digit_char (int_nums n R).
Proof.
  intros [| p | p] R Hn; [reflexivity | apply digits_of_nums | lia].
Qed.

Lemma int_nums_spec :
  forall n R, 2 <= R -> 0 <= n ->
    int_nums n R <> [] /\ Forall (in_radix R) (int_nums n R) /\
    mathInt R (int_nums n R) = n.
Proof.
  intros [| p | p] R HR Hn; [| | lia]; cbn [int_nums].
  - split; [discriminate |]. split; [repeat constructor; lia | reflexivity].
  - split; [apply nums_not_nil |]. apply nums_spec; lia.
Qed.

(** Round trip in base 10: [parseInt(n.toString())] is [n]. *)
Lemma parseInt_toString :
  forall n, parseInt (int_toString n 10) None = Int n.
Proof.
  intros [| p | p].
  - reflexivity.
  - rewrite int_toString_nonneg by lia.
    destruct (int_nums_spec (Z.pos p) 10) as (Hne & Hall & Hval); try lia.
    rewrite (parseInt_numeral None 10); try assumption; try lia.
    + rewrite Hval. reflexivity.
    + right; split; reflexivity.
  - cbn [int_toString]. rewrite digits_of_nums.
    destruct (nums_spec p 10 (Z.pos p)) as (Hall & Hval); try lia.
    rewrite parseInt_negative_numeral; [| apply nums_not_nil | exact Hall].
    rewrite Hval. reflexivity.
Qed.

(* ================================================================== *)
(** ** Formatting and validating binary numerals *)
(* ================================================================== *)

Lemma nums_length :
  forall fuel n b, 1 <= b -> 0 <= n < 2 ^ b ->
    Z.of_nat (List.length (nums fuel 2 n)) <= b.
Proof.
  assert (Hstep : forall f n b,
            (forall m c, 1 <= c -> 0 <= m < 2 ^ c ->
               Z.of_nat (List.length (nums f 2 m)) <= c) ->
            1 <= b -> 0 <= n < 2 ^ b ->
            Z.of_nat (List.length
              (if n <? 2 then [n] else nums f 2 (n / 2) ++ [n mod 2])) <= b).
  { intros f n b IH Hb Hn. destruct (Z.ltb_spec n 2) as [Hlt | Hge].
    - cbn [List.length]. lia.
    - rewrite length_app. cbn [List.length].
      assert (Hb2 : 2 <= b).
      { destruct (Z.eq_dec b 1) as [-> |]; [| lia]. cbn in Hn. lia. }
      replace b with (Z.succ (b - 1)) in Hn by lia.
      rewrite Z.pow_succ_r in Hn by lia.
      specialize (IH (n / 2) (b - 1) ltac:(lia)).
      assert (0 <= n / 2 < 2 ^ (b - 1)).
      { split; [apply Z.div_pos; lia | apply Z.div_lt_upper_bound; lia]. }
      specialize (IH ltac:(assumption)). lia. }
  induction fuel as [f IH | f IH |]; intros n b Hb Hn; cbn [nums].
  - apply Hstep; assumption.
  - apply Hstep; assumption.
  - cbn [List.length]. lia.
Qed.

Lemma int_nums_length :
  forall d v, 0 <= v <= maxValue d ->
    Z.of_nat (List.length (int_nums v 2)) <= bits d.
Proof.
  intros d v Hv. unfold maxValue in Hv.
  assert (Hb : 1 <= bits d) by (destruct d; cbn; lia).
  destruct v as [| p | p]; cbn [int_nums]; [cbn; lia | | lia].
  apply nums_length; lia.
Qed.

(** [formatBinary] is the binary numeral of [v] after some zeros. *)
Lemma formatBinary_digits :
  forall d v, 0 <= v ->
    exists k, formatBinary d v = map digit_char (repeat 0 k ++ int_nums v 2).
Proof.
  intros d v Hv. unfold formatBinary, padStart.
  rewrite (int_toString_nonneg v 2 Hv).
  destruct (bits d <=? _).
  - exists 0%nat. reflexivity.
  - eexists. rewrite map_app, map_repeat. reflexivity.
Qed.

Lemma formatBinary_length :
  forall d v, 0 <= v <= maxValue d ->
    Z.of_nat (List.length (formatBinary d v)) = bits d.
Proof.
  intros d v Hv. pose proof (int_nums_length d v Hv) as Hlen.
  unfold formatBinary, padStart.
  rewrite (int_toString_nonneg v 2) by lia.
  rewrite length_map in *.
  destruct (Z.leb_spec (bits d) (Z.of_nat (List.length (int_nums v 2)))).
  - rewrite length_map. lia.
  - rewrite length_app, repeat_length, length_map. lia.
Qed.

(** The filter of the validator keeps every binary digit. *)
Lemma replaceNon01_binary :
  forall ds, Forall (in_radix 2) ds ->
    replaceNon01 (map digit_char ds) = map digit_char ds.
Proof.
  intros ds Hall. unfold replaceNon01.
  induction Hall as [| d ds Hd _ IH]; [reflexivity |].
  cbn [map filter]. rewrite IH.
  assert (Hc : d = 0 \/ d = 1) by (unfold in_radix in Hd; lia).
  destruct Hc as [-> | ->]; reflexivity.
Qed.

Lemma Forall_zeros : forall R k, 0 < R -> Forall (in_radix R) (repeat 0 k).
Proof.
  intros R k HR. induction k; cbn [repeat]; constructor;
    [unfold in_radix; lia | assumption].
Qed.

(** C3. Round trip of formatting and validation: for every bit width and
    every integer [v] from 0 to 2^bitWidth - 1, [formatBinary] gives a
    string of bitWidth characters, and that string submitted in a
    decimal-to-binary round of value [v] is validated as correct. *)
Theorem formatBinary_isCorrect :
  forall (d : Difficulty) (v : Z),
    0 <= v <= 2 ^ bits d - 1 ->
    Z.of_nat (List.length (formatBinary d v)) = bits d /\
    isCorrect DecimalToBinary (formatBinary d v) v = true.
Proof.
  intros d v Hv. split; [apply formatBinary_length; exact Hv |].
  destruct (formatBinary_digits d v ltac:(lia)) as [k Hk].
  destruct (int_nums_spec v 2) as (Hne & Hall & Hval); try lia.
  assert (Hall' : Forall (in_radix 2) (repeat 0 k ++ int_nums v 2)).
  { apply Forall_app; split; [apply Forall_zeros; lia | exact Hall]. }
  unfold isCorrect. rewrite Hk, (replaceNon01_binary _ Hall').
  rewrite (parseInt_numeral (Some 2) 2); try (exact Hall' || lia).
  - rewrite mathInt_zeros, Hval. cbn [strict_eq]. apply Z.eqb_refl.
  - left. repeat split; lia.
  - intros H. apply app_eq_nil in H. destruct H as [_ H]. exact (Hne H).
Qed.

Lemma formatBinary_isCorrect_witness :
  Z.of_nat (List.length (formatBinary D4 10)) = bits D4 /\
  isCorrect DecimalToBinary (formatBinary D4 10) 10 = true.
Proof.
  apply (formatBinary_isCorrect D4 10). vm_compute. split; discriminate.
Defined.

(* ================================================================== *)
(** ** Trimming *)
(* ================================================================== *)

Lemma truthy_trimStart :
  forall s, truthy (trimStart s) = existsb not_white s.
Proof.
  induction s as [| c t IH]; [reflexivity |].
  cbn [trimStart existsb]. unfold not_white at 1.
  destruct (is_white c); [exact IH | reflexivity].
Qed.

Lemma existsb_trimStart :
  forall s, existsb not_white (trimStart s) = existsb not_white s.
Proof.
  induction s as [| c t IH]; [reflexivity |].
  cbn [trimStart]. destruct (is_white c) eqn:E; [| reflexivity].
  cbn [existsb]. unfold not_white at 2. rewrite E. exact IH.
Qed.

Lemma existsb_rev_eq :
  forall (f : code_unit -> bool) s, existsb f (rev s) = existsb f s.
Proof.
  intros f s. induction s as [| c t IH]; [reflexivity |].
  cbn [rev existsb]. rewrite existsb_app, IH. cbn [existsb].
  rewrite orb_false_r. apply orb_comm.
Qed.

Lemma truthy_rev : forall s : jsstring, truthy (rev s) = truthy s.
Proof.
  intros [| c t]; [reflexivity |]. cbn [rev truthy].
  destruct (rev t); reflexivity.
Qed.

(** The test [userInput.trim()] of [checkAnswer] and of the key handler
    succeeds exactly when the input has a character that is not white
    space. *)
Lemma truthy_trim :
  forall s, truthy (trim s) = existsb not_white s.
Proof.
  intros s. unfold trim, trimEnd.
  rewrite truthy_rev, truthy_trimStart, existsb_rev_eq.
  apply existsb_trimStart.
Qed.

(** What [trimStart] removes is white space, and what it leaves does not
    begin with white space. *)
Lemma trimStart_split :
  forall s, exists ws,
    s = ws ++ trimStart s /\ forallb is_white ws = true /\
    match trimStart s with c :: _ => is_white c = false | [] => True end.
Proof.
  induction s as [| c t (ws & Hs & Hws & Hhd)].
  - exists []. repeat split.
  - cbn [trimStart]. destruct (is_white c) eqn:E.
    + exists (c :: ws). cbn [app forallb]. rewrite E, Hws.
      repeat split; [f_equal; exact Hs | exact Hhd].
    + exists []. repeat split. exact E.
Qed.

Lemma trimStart_app_white :
  forall ws s, forallb is_white ws = true -> trimStart (ws ++ s) = trimStart s.
Proof.
  induction ws as [| c ws IH]; intros s H; [reflexivity |].
  cbn [forallb] in H. apply andb_prop in H. destruct H as [Hc Hws].
  cbn [app trimStart]. rewrite Hc. apply IH, Hws.
Qed.

(** Submitting the formatted value gives the feedback [correct]. *)
Lemma checkAnswer_formatBinary :
  forall st,
    currentMode st = DecimalToBinary ->
    0 <= currentNumber st <= maxValue (difficulty st) ->
    userInput st = formatBinary (difficulty st) (currentNumber st) ->
    feedback (checkAnswer st) = Some correct.
Proof.
  intros st Hmode Hv Hin.
  destruct (formatBinary_isCorrect (difficulty st) (currentNumber st) Hv)
    as [Hlen Hok].
  unfold checkAnswer. rewrite Hin, Hmode, Hok.
  destruct (formatBinary_digits (difficulty st) (currentNumber st) ltac:(lia))
    as [k Hk].
  destruct (int_nums_spec (currentNumber st) 2) as (Hne & Hall & _); try lia.
  assert (Ht : truthy (trim (formatBinary (difficulty st) (currentNumber st))) = true).
  { rewrite truthy_trim, Hk, map_app, existsb_app.
    destruct (int_nums (currentNumber st) 2) as [| n ns]; [contradiction |].
    inversion Hall as [| ? ? Hn _]; subst.
    cbn [map existsb]. unfold not_white at 2.
    rewrite (digit_char_not_white 2 n ltac:(lia) Hn).
    apply orb_true_r. }
  rewrite Ht. reflexivity.
Qed.

(* ================================================================== *)
(** ** Malformed answers *)
(* ================================================================== *)

Lemma parseInt_empty : forall radix, parseInt [] radix = NaN.
Proof.
  intros radix. unfold parseInt. cbn [trimStart read_sign].
  destruct (negb _ && _); [reflexivity |].
  unfold strip_prefix. reflexivity.
Qed.

(** C4. In a decimal-to-binary round, a non-empty input without any
    character '0' or '1' is validated as incorrect: the validator returns
    [false], whatever the value of the round. *)
Theorem isCorrect_no_binary_digit :
  forall (input : jsstring) (num : Z),
    input <> [] ->
    replaceNon01 input = [] ->
    isCorrect DecimalToBinary input num = false.
Proof.
  intros input num _ Hfilter. unfold isCorrect.
  rewrite Hfilter, parseInt_empty. reflexivity.
Qed.

Lemma isCorrect_no_binary_digit_witness :
  isCorrect DecimalToBinary (str "two") 2 = false.
Proof.
  apply (isCorrect_no_binary_digit (str "two") 2).
  - discriminate.
  - reflexivity.
Defined.

(** The submission of such an input is either blank, and ignored, or
    answered with the feedback [incorrect]. *)
Lemma checkAnswer_no_binary_digit :
  forall st,
    currentMode st = DecimalToBinary ->
    replaceNon01 (userInput st) = [] ->
    checkAnswer st = st \/
    feedback (checkAnswer st) = Some incorrect /\
    stats (checkAnswer st) = applyResult false (stats st).
Proof.
  intros st Hmode Hfilter. unfold checkAnswer.
  destruct (truthy (trim (userInput st))); [right | left; reflexivity].
  unfold isCorrect. rewrite Hmode, Hfilter, parseInt_empty.
  split; reflexivity.
Qed.

(* ================================================================== *)
(** ** High score *)
(* ================================================================== *)

Lemma loadHighScore_absent :
  loadHighScore None = Int 0 /\ loadHighScore (Some []) = Int 0.
Proof. split; reflexivity. Qed.

Lemma loadHighScore_stored :
  forall s, s <> [] -> loadHighScore (Some s) = parseInt s None.
Proof.
  intros [| c t] H; [contradiction | reflexivity].
Qed.

(** C7. A stored value that is not a numeral makes the initial high score
    [NaN], not 0: here the stored string is [abc]. An absent value and an
    empty one give 0. *)
Theorem initial_highScore_corrupt :
  highScore (stats (initialState (Some (str "abc")))) = NaN /\
  highScore (stats (initialState None)) = Int 0 /\
  highScore (stats (initialState (Some []))) = Int 0.
Proof. repeat split; reflexivity. Qed.

(** A high score that is [NaN] stays: the end of a session neither
    writes the storage nor changes the field, whatever the score. *)
Lemma endGame_NaN :
  forall st, highScore (stats st) = NaN -> endGame st = setGameState gameOver st.
Proof.
  intros st H. unfold endGame. rewrite H. reflexivity.
Qed.

(** What is stored reads back to the high score in memory when a session
    ends, provided it did before. *)
Lemma endGame_in_sync : forall st, in_sync st -> in_sync (endGame st).
Proof.
  intros st H. unfold in_sync, endGame in *.
  destruct (highScore (stats st)) as [| h] eqn:Eh; cbn [math_max gt].
  - cbn. rewrite Eh. exact H.
  - destruct (Z.ltb_spec h (Z.max (score (stats st)) h)).
    + cbn [setStats setItem stats storage withHighScore highScore
           setGameState toString loadHighScore storedOrDefault].
      assert (Ht : truthy (int_toString (Z.max (score (stats st)) h) 10) = true).
      { destruct (Z.max (score (stats st)) h); cbn [int_toString]; try reflexivity.
        rewrite digits_of_nums.
        pose proof (nums_not_nil p 10 (Z.pos p)).
        destruct (nums p 10 (Z.pos p)); [contradiction | reflexivity]. }
      unfold loadHighScore, storedOrDefault.
      rewrite Ht. apply parseInt_toString.
    + cbn [setGameState stats storage]. rewrite Eh. exact H.
Qed.

(** At the end of a session, with a numeric high score [h] that the
    storage reads back to, the game is over and the high score in memory
    and the one read back from the storage are both the maximum of the
    final score and [h]: a final score above [h] is written to the storage
    as its decimal numeral, otherwise storage and statistics are
    unchanged. The high score does not decrease. *)
Lemma endGame_highScore :
  forall (st : State) (h : Z),
    highScore (stats st) = Int h ->
    loadHighScore (storage st) = Int h ->
    let st' := endGame st in
    let final := score (stats st) in
    gameState st' = gameOver /\
    highScore (stats st') = Int (Z.max final h) /\
    loadHighScore (storage st') = Int (Z.max final h) /\
    h <= Z.max final h /\
    (if h <? final
     then storage st' = Some (int_toString final 10)
     else storage st' = storage st /\ stats st' = stats st).
Proof.
  intros st h Hh Hsync st' final.
  assert (Hs : in_sync st') by (apply endGame_in_sync; unfold in_sync; congruence).
  assert (Hhigh : highScore (stats st') = Int (Z.max final h)).
  { subst st' final. unfold endGame. rewrite Hh. cbn [math_max gt].
    destruct (Z.ltb_spec h (Z.max (score (stats st)) h)) as [Hlt | Hge].
    - reflexivity.
    - cbn [setGameState stats]. rewrite Hh. f_equal. lia. }
  split.
  { subst st'. unfold endGame. destruct (gt _ _); reflexivity. }
  split; [exact Hhigh |].
  split; [unfold in_sync in Hs; congruence |].
  split; [lia |].
  subst st' final. unfold endGame. rewrite Hh. cbn [math_max gt].
  destruct (Z.ltb_spec h (score (stats st))) as [Hlt | Hge].
  - destruct (Z.ltb_spec h (Z.max (score (stats st)) h)); [| lia].
    cbn [setStats setItem storage setGameState toString].
    rewrite Z.max_l by lia. reflexivity.
  - destruct (Z.ltb_spec h (Z.max (score (stats st)) h)); [lia |].
    split; reflexivity.
Qed.

Lemma endGame_highScore_witness :
  highScore (stats (endGame (session_ending 80))) = Int 80 /\
  loadHighScore (storage (endGame (session_ending 80))) = Int 80 /\
  storage (endGame (session_ending 80)) = Some (str "80").
Proof.
  destruct (endGame_highScore (session_ending 80) 50 eq_refl eq_refl)
    as (_ & Hmem & Hread & _ & Hstore).
  split; [exact Hmem | split; [exact Hread | exact Hstore]].
Defined.

(** In every state, [endGame] follows [Math.max] and [>] of JavaScript:
    the new high score is [Math.max(score, highScore)], and the storage is
    written, with the decimal numeral of that number, exactly when it is
    greater than the old high score. With a high score that is [NaN] the
    maximum is [NaN] and the comparison fails. *)
Lemma endGame_highScore_all :
  forall st : State,
    gameState (endGame st) = gameOver /\
    highScore (stats (endGame st))
    = math_max (Int (score (stats st))) (highScore (stats st)) /\
    storage (endGame st)
    = (if gt (math_max (Int (score (stats st))) (highScore (stats st)))
            (highScore (stats st))
       then Some (toString
                    (math_max (Int (score (stats st))) (highScore (stats st))) 10)
       else storage st).
Proof.
  intros st. unfold endGame.
  destruct (highScore (stats st)) as [| h] eqn:Eh; cbn [math_max gt].
  - cbn [setGameState gameState stats storage]. rewrite Eh. repeat split.
  - destruct (Z.ltb_spec h (Z.max (score (stats st)) h)) as [Hlt | Hge].
    + repeat split.
    + cbn [setGameState gameState stats storage]. rewrite Eh.
      split; [reflexivity |]. split; [f_equal; lia | reflexivity].
Qed.

(** C6. A session that ends with a positive score is not recorded when
    the stored value is not a numeral. The storage holds [abc]; one round
    of value 10 is answered correctly in a binary-to-decimal session and
    the countdown runs to the end. The game is over with a final score of
    10, and the high score in memory is still [NaN], the storage still
    holds [abc], and a reload reads [NaN] again: the maximum of the final
    score and the previous high score was neither kept in memory nor
    persisted. *)
Theorem endGame_corrupt_highScore :
  let session :=
    [SelectMode binary_to_decimal; ClickStart (10 # 256) (0 # 1);
     TypeInput (str "10"); ClickSubmit; FeedbackTimeout (1 # 2) (0 # 1)]
    ++ repeat Tick 30 in
  let over := run session (initialState (Some (str "abc"))) in
  gameState over = gameOver /\
  score (stats over) = 10 /\
  totalCorrect (stats over) = 1 /\
  highScore (stats over) = NaN /\
  storage over = Some (str "abc") /\
  loadHighScore (storage over) = NaN.
Proof. vm_compute. repeat split; reflexivity. Qed.

(** The two sessions of the specification: a stored high score of 50
    becomes 80 after a final score of 80 and stays 50 after one of 30. *)
Example endGame_50_80_30 :
  storage (tick (session_ending 80)) = Some (str "80") /\
  highScore (stats (tick (session_ending 80))) = Int 80 /\
  storage (tick (session_ending 30)) = Some (str "50") /\
  highScore (stats (tick (session_ending 30))) = Int 50.
Proof. repeat split; reflexivity. Qed.

(* ================================================================== *)
(** ** Sessions *)
(* ================================================================== *)

(** [startGame] resets four counters and leaves [maxStreak] and
    [highScore] as they were. *)
Lemma startGame_stats :
  forall r1 r2 st,
    stats (startGame r1 r2 st)
    = mkStats 0 0 (maxStreak (stats st)) 0 0 (highScore (stats st)).
Proof. reflexivity. Qed.

Lemma startGame_playing :
  forall r1 r2 st,
    gameState (startGame r1 r2 st) = playing /\
    timeLeft (startGame r1 r2 st) = gameDuration st.
Proof. split; reflexivity. Qed.

(** During answers [maxStreak] is a high-water mark: after a run of
    answers it is the maximum of its value before the run and of the
    streaks reached in the run. *)
Lemma maxStreak_high_water :
  forall answers s,
    maxStreak (applyResults answers s)
    = fold_left Z.max (streaks (streak s) answers) (maxStreak s).
Proof.
  unfold applyResults.
  induction answers as [| c rest IH]; intros s; [reflexivity |].
  cbn [fold_left streaks]. rewrite IH.
  destruct c; reflexivity.
Qed.

(** [maxStreak] never decreases while answers are scored, and the streak
    never exceeds it afterwards. *)
Lemma applyResult_maxStreak_mono :
  forall c s,
    maxStreak s <= maxStreak (applyResult c s) /\
    streak (applyResult c s) <= maxStreak (applyResult c s).
Proof.
  intros c s. destruct c; cbn [applyResult maxStreak streak]; lia.
Qed.

(** C8. A second session starts with the [maxStreak] of the first one:
    two correct answers in a 4-bit decimal-to-binary session, the
    countdown run to the end, then "play again". The game is playing
    again with score and streak 0, and [maxStreak] is 2. *)
Theorem playAgain_maxStreak :
  let first_session :=
    [SelectMode decimal_to_binary; SelectDifficulty D4;
     ClickStart (10 # 16) (0 # 1);
     TypeInput (str "1010"); ClickSubmit; FeedbackTimeout (5 # 16) (0 # 1);
     TypeInput (str "0101"); ClickSubmit; FeedbackTimeout (5 # 16) (0 # 1)]
    ++ repeat Tick 30 in
  let over := run first_session (initialState None) in
  let again := step (ClickPlayAgain (3 # 16) (0 # 1)) over in
  gameState over = gameOver /\
  maxStreak (stats over) = 2 /\
  gameState again = playing /\
  score (stats again) = 0 /\
  streak (stats again) = 0 /\
  totalAnswered (stats again) = 0 /\
  maxStreak (stats again) = 2.
Proof. vm_compute. repeat split; reflexivity. Qed.

(** The feedback of one answer locks the submit button. *)
Lemma clickSubmit_locked :
  forall st, feedback st <> None -> clickSubmit st = st.
Proof.
  intros st H. unfold clickSubmit, submitDisabled.
  destruct (feedback st); [| contradiction].
  rewrite orb_true_r. destruct (gameState st); reflexivity.
Qed.

(** The key handler does not look at the feedback: while playing, Enter
    on a non-blank input runs [checkAnswer]. *)
Lemma handleKeyPress_Enter :
  forall st,
    gameState st = playing ->
    truthy (trim (userInput st)) = true ->
    handleKeyPress (str "Enter") st = checkAnswer st.
Proof.
  intros st Hg Ht. unfold handleKeyPress, is_playing. rewrite Hg, Ht. reflexivity.
Qed.

(** C9. A second Enter while the feedback of the first answer is shown is
    validated and scored again: after the answer [1010] to the round of
    value 10 the feedback is [correct] and the score 10; the button is
    locked, but a second Enter brings the score to 22 with two answers
    counted. *)
Theorem enter_while_locked :
  let locked :=
    run [SelectMode decimal_to_binary; SelectDifficulty D4;
         ClickStart (10 # 16) (0 # 1);
         TypeInput (str "1010"); KeyPress (str "Enter")]
        (initialState None) in
  let twice := step (KeyPress (str "Enter")) locked in
  feedback locked = Some correct /\
  score (stats locked) = 10 /\
  totalAnswered (stats locked) = 1 /\
  step ClickSubmit locked = locked /\
  score (stats twice) = 22 /\
  streak (stats twice) = 2 /\
  totalAnswered (stats twice) = 2.
Proof. vm_compute. repeat split; reflexivity. Qed.

(* ================================================================== *)
(** ** Validating decimal answers *)
(* ================================================================== *)

Lemma radix_digit_10 :
  forall c,
    radix_digit 10 c = if is_decimal c then Some (decimal_digit_value c) else None.
Proof.
  intros c. unfold radix_digit, digit_value, is_decimal, decimal_digit_value.
  destruct (N.leb_spec 48 c); destruct (N.leb_spec c 57); cbn [andb];
    try (destruct (Z.ltb_spec (Z.of_N c - 48) 10); [reflexivity | lia]);
    destruct (N.leb_spec 97 c); destruct (N.leb_spec c 122); cbn [andb];
    try (destruct (Z.ltb_spec (Z.of_N c - 87) 10); [lia | reflexivity]);
    destruct (N.leb_spec 65 c); destruct (N.leb_spec c 90); cbn [andb];
    try (destruct (Z.ltb_spec (Z.of_N c - 55) 10); [lia | reflexivity]);
    try reflexivity; lia.
Qed.

Lemma mathInt_decimal :
  forall ds, mathInt 10 (map decimal_digit_value ds) = decimal_value ds.
Proof.
  intros ds. unfold mathInt, decimal_value. generalize 0.
  induction ds as [| c t IH]; intros acc; [reflexivity |].
  cbn [map fold_left]. apply IH.
Qed.

(** In radix 10 the prefix read is the longest run of decimal digits. *)
Lemma digit_prefix_decimal_split :
  forall s, exists ds rest,
    s = ds ++ rest /\ forallb is_decimal ds = true /\
    starts_with_decimal rest = false /\
    digit_prefix 10 s = map decimal_digit_value ds.
Proof.
  induction s as [| c t (ds & rest & Hs & Hds & Hrest & Hp)].
  - exists [], []. repeat split.
  - cbn [digit_prefix]. rewrite radix_digit_10.
    destruct (is_decimal c) eqn:E.
    + exists (c :: ds), rest. cbn [app forallb map]. rewrite E, Hds, Hp, <- Hs.
      repeat split. exact Hrest.
    + exists [], (c :: t). repeat split. exact E.
Qed.

Lemma digit_prefix_decimal_app :
  forall ds rest,
    forallb is_decimal ds = true -> starts_with_decimal rest = false ->
    digit_prefix 10 (ds ++ rest) = map decimal_digit_value ds.
Proof.
  induction ds as [| c t IH]; intros rest Hds Hrest.
  - destruct rest as [| c r]; [reflexivity |].
    cbn [app digit_prefix map]. rewrite radix_digit_10.
    cbn [starts_with_decimal] in Hrest. rewrite Hrest. reflexivity.
  - cbn [forallb] in Hds. apply andb_prop in Hds. destruct Hds as [Hc Ht].
    cbn [app digit_prefix map]. rewrite radix_digit_10, Hc, (IH rest Ht Hrest).
    reflexivity.
Qed.

Lemma read_sign_split :
  forall s sign s2, read_sign s = (sign, s2) ->
    (s = s2 /\ sign = 1) \/ (s = 43%N :: s2 /\ sign = 1)
    \/ (s = 45%N :: s2 /\ sign = -1).
Proof.
  intros [| c t] sign s2 H; cbn [read_sign] in H.
  - inversion H. left. split; reflexivity.
  - destruct (N.eqb_spec c 45) as [-> |].
    + inversion H. right. right. split; reflexivity.
    + destruct (N.eqb_spec c 43) as [-> |]; inversion H.
      * right. left. split; reflexivity.
      * left. split; reflexivity.
Qed.

Lemma is_decimal_range : forall c, is_decimal c = true -> (48 <= c <= 57)%N.
Proof.
  intros c H. unfold is_decimal in H. apply andb_prop in H. destruct H as [H1 H2].
  apply N.leb_le in H1, H2. lia.
Qed.

Lemma read_sign_decimal :
  forall c t, is_decimal c = true -> read_sign (c :: t) = (1, c :: t).
Proof.
  intros c t H. apply is_decimal_range in H. unfold read_sign.
  destruct (N.eqb_spec c 45); [lia |].
  destruct (N.eqb_spec c 43); [lia | reflexivity].
Qed.

Lemma strip_prefix_default :
  forall s,
    match s with
    | c0 :: c1 :: _ => (c0 =? 48)%N && is_x c1
    | _ => false
    end = false ->
    strip_prefix 0 s = (10, s).
Proof.
  intros s H. unfold strip_prefix. cbn [Z.eqb orb andb].
  destruct s as [| c0 [| c1 t]]; try reflexivity.
  rewrite H. reflexivity.
Qed.

Lemma strict_eq_Int :
  forall x n, strict_eq x (Int n) = true <-> x = Int n.
Proof.
  intros [| z] n; cbn [strict_eq]; split; intros H; try discriminate.
  - apply Z.eqb_eq in H. congruence.
  - inversion H. apply Z.eqb_refl.
Qed.

(** What [parseInt] without radix gives on an input without a [0x]
    prefix. *)
Lemma parseInt_default_steps :
  forall raw sign s2,
    hex_prefixed raw = false ->
    read_sign (trimStart raw) = (sign, s2) ->
    parseInt raw None
    = match digit_prefix 10 s2 with
      | [] => NaN
      | ds => Int (sign * mathInt 10 ds)
      end.
Proof.
  intros raw sign s2 Hhex Hsign.
  apply (parseInt_steps raw None sign s2 10 s2 Hsign); [reflexivity |].
  apply strip_prefix_default. unfold hex_prefixed in Hhex.
  rewrite Hsign in Hhex. exact Hhex.
Qed.

(** C5, as amended. In a binary-to-decimal round, for an input that does
    not begin (after white space and sign) with [0x] or [0X], the answer
    is validated as correct exactly when the input begins with a base-10
    numeral of the value of the round: optional white space, an optional
    sign, the longest run of decimal digits, which is not empty; whatever
    follows the digits is ignored. *)
Theorem isCorrect_decimal_prefix :
  forall (raw : jsstring) (num : Z),
    hex_prefixed raw = false ->
    (isCorrect BinaryToDecimal raw num = true <-> reads_decimal raw num).
Proof.
  intros raw num Hhex. unfold isCorrect. rewrite strict_eq_Int. split.
  - intros Hparse.
    destruct (read_sign (trimStart raw)) as [sign s2] eqn:Hsign.
    rewrite (parseInt_default_steps raw sign s2 Hhex Hsign) in Hparse.
    destruct (trimStart_split raw) as (ws & Hraw & Hws & _).
    destruct (digit_prefix_decimal_split s2) as (ds & rest & Hs2 & Hds & Hrest & Hp).
    rewrite Hp in Hparse.
    destruct (map decimal_digit_value ds) as [| v vs] eqn:Em; [discriminate |].
    rewrite <- Em, mathInt_decimal in Hparse. inversion Hparse as [Hnum].
    destruct ds as [| c t]; [discriminate |]. clear Em.
    apply read_sign_split in Hsign.
    destruct Hsign as [(E & ->) | [(E & ->) | (E & ->)]].
    + exists ws, [], (c :: t), rest. rewrite Hraw at 1. rewrite E, Hs2.
      repeat split; try assumption; try discriminate.
      left. split; [reflexivity | lia].
    + exists ws, [43%N], (c :: t), rest. rewrite Hraw at 1. rewrite E, Hs2.
      repeat split; try assumption; try discriminate.
      right. left. split; [reflexivity | lia].
    + exists ws, [45%N], (c :: t), rest. rewrite Hraw at 1. rewrite E, Hs2.
      repeat split; try assumption; try discriminate.
      right. right. split; [reflexivity | lia].
  - intros (ws & sgn & ds & rest & Hraw & Hws & Hsgn & Hne & Hds & Hrest).
    destruct ds as [| c t]; [contradiction |].
    assert (Hc : is_decimal c = true).
    { cbn [forallb] in Hds. apply andb_prop in Hds. apply Hds. }
    assert (Hcw : is_white c = false).
    { apply is_white_false. apply is_decimal_range in Hc. lia. }
    assert (Htrim : trimStart raw = sgn ++ (c :: t) ++ rest).
    { rewrite Hraw, (trimStart_app_white ws _ Hws).
      destruct Hsgn as [(-> & _) | [(-> & _) | (-> & _)]];
        cbn [app trimStart]; [rewrite Hcw |..]; reflexivity. }
    assert (Hsign : exists sign,
               read_sign (trimStart raw) = (sign, (c :: t) ++ rest) /\
               num = sign * decimal_value (c :: t)).
    { rewrite Htrim.
      destruct Hsgn as [(-> & ->) | [(-> & ->) | (-> & ->)]]; cbn [app].
      - exists 1. split; [apply read_sign_decimal, Hc | lia].
      - exists 1. split; [reflexivity | lia].
      - exists (-1). split; [reflexivity | lia]. }
    destruct Hsign as (sign & Hsign & ->).
    rewrite (parseInt_default_steps raw sign _ Hhex Hsign).
    rewrite (digit_prefix_decimal_app (c :: t) rest Hds Hrest).
    cbn [map]. rewrite <- mathInt_decimal. reflexivity.
Qed.

Lemma isCorrect_decimal_prefix_witness :
  isCorrect BinaryToDecimal (str " 42 apples") 42 = true
  <-> reads_decimal (str " 42 apples") 42.
Proof.
  apply (isCorrect_decimal_prefix (str " 42 apples") 42). reflexivity.
Defined.

(** C5, as the claim words it, does not hold: the input [5abc] is
    validated as correct in a round of value 5, and it is not a base-10
    integer once trimmed. *)
Lemma isCorrect_decimal_not_strict :
  ~ (forall (d : Difficulty) (raw : jsstring) (num : Z),
       0 <= num <= maxValue d ->
       (isCorrect BinaryToDecimal raw num = true
        <-> parse_base10_strict raw = Some num)).
Proof.
  intros H.
  destruct (H D4 (str "5abc") 5 ltac:(vm_compute; split; discriminate)) as [H1 _].
  specialize (H1 eq_refl). vm_compute in H1. discriminate H1.
Qed.

(** Without a radix, [parseInt] also reads a [0x] prefix as hexadecimal. *)
Example isCorrect_hexadecimal :
  isCorrect BinaryToDecimal (str "0x10") 16 = true /\
  isCorrect BinaryToDecimal (str "0x10") 0 = false.
Proof. split; reflexivity. Qed.

(** On inputs that are base-10 integers once trimmed, the validator
    agrees with the strict reading. *)
Example isCorrect_decimal_examples :
  isCorrect BinaryToDecimal (str "  10 ") 10 = true /\
  parse_base10_strict (str "  10 ") = Some 10 /\
  isCorrect BinaryToDecimal (str "11") 10 = false /\
  isCorrect BinaryToDecimal (str "ten") 10 = false.
Proof. repeat split; reflexivity. Qed.

(* ================================================================== *)
(** ** The high score along a run *)
(* ================================================================== *)

Ltac case_handler :=
  repeat match goal with
         | |- context [if ?b then _ else _] => destruct b
         | |- context [match ?x with _ => _ end] => destruct x
         end.

Ltac case_handler_eq :=
  repeat match goal with
         | |- context [if ?b then _ else _] => destruct b eqn:?
         | |- context [match ?x with _ => _ end] => destruct x eqn:?
         end.

Lemma Event_eq_Tick : forall e, e = Tick \/ e <> Tick.
Proof. intros []; (left; reflexivity) || (right; discriminate). Qed.

(** Every handler but the end of the game leaves the high score and the
    storage alone. *)
Lemma step_highScore_frame :
  forall e st,
    e <> Tick ->
    highScore (stats (step e st)) = highScore (stats st) /\
    storage (step e st) = storage st.
Proof.
  intros e st He.
  destruct e; try contradiction; cbn [step];
    unfold typeInput, clickSubmit, handleKeyPress, feedbackTimeout, checkAnswer;
    case_handler; split; reflexivity.
Qed.

(** A tick decrements the countdown, ends the game, or does nothing. *)
Lemma tick_cases :
  forall st,
    tick st = st \/
    tick st = setTimeLeft (timeLeft st - 1) st \/
    tick st = endGame st \/
    tick st = endGame (setTimeLeft (timeLeft st - 1) st).
Proof.
  intros st. unfold tick. case_handler; auto.
Qed.

Lemma step_in_sync : forall e st, in_sync st -> in_sync (step e st).
Proof.
  intros e st H. destruct (Event_eq_Tick e) as [-> | He].
  - cbn [step]. destruct (tick_cases st) as [E | [E | [E | E]]]; rewrite E.
    + exact H.
    + exact H.
    + apply endGame_in_sync, H.
    + apply endGame_in_sync. exact H.
  - unfold in_sync. destruct (step_highScore_frame e st He) as [-> ->]. exact H.
Qed.

(** In every reachable state the high score in memory is what the
    storage reads back to. *)
Lemma reachable_in_sync : forall st, reachable st -> in_sync st.
Proof.
  intros st (stored & es & ->). unfold run.
  assert (H0 : in_sync (initialState stored)) by reflexivity.
  revert H0. generalize (initialState stored).
  induction es as [| e es IH]; intros s Hs; [exact Hs |].
  cbn [fold_left]. apply IH, step_in_sync, Hs.
Qed.

(** A numeric high score never decreases, whatever happens. *)
Lemma step_highScore_mono :
  forall e st h,
    highScore (stats st) = Int h ->
    exists h', highScore (stats (step e st)) = Int h' /\ h <= h'.
Proof.
  assert (Hend : forall st h, highScore (stats st) = Int h ->
            exists h', highScore (stats (endGame st)) = Int h' /\ h <= h').
  { intros st h Hh. unfold endGame. rewrite Hh. cbn [math_max gt].
    destruct (Z.ltb_spec h (Z.max (score (stats st)) h)).
    - eexists. split; [reflexivity | lia].
    - exists h. split; [exact Hh | lia]. }
  intros e st h Hh. destruct (Event_eq_Tick e) as [-> | He].
  - cbn [step]. destruct (tick_cases st) as [E | [E | [E | E]]]; rewrite E.
    + exists h. split; [exact Hh | lia].
    + exists h. split; [exact Hh | lia].
    + apply Hend, Hh.
    + apply Hend. exact Hh.
  - destruct (step_highScore_frame e st He) as [-> _].
    exists h. split; [exact Hh | lia].
Qed.

(* ================================================================== *)
(** ** Invariants of runs *)
(* ================================================================== *)

(** A property the initial states have and every event keeps holds in
    every reachable state. *)
Lemma reachable_ind :
  forall P : State -> Prop,
    (forall stored, P (initialState stored)) ->
    (forall e st, P st -> P (step e st)) ->
    forall st, reachable st -> P st.
Proof.
  intros P Hinit Hstep st (stored & es & ->). unfold run.
  generalize (Hinit stored). generalize (initialState stored).
  induction es as [| e es IH]; intros s Hs; [exact Hs |].
  cbn [fold_left]. apply IH, Hstep, Hs.
Qed.

Lemma reachable_initial : forall stored, reachable (initialState stored).
Proof. intros stored. exists stored, []. reflexivity. Qed.

Lemma reachable_run :
  forall stored es, reachable (run es (initialState stored)).
Proof. intros stored es. exists stored, es. reflexivity. Qed.

Lemma run_app :
  forall es1 es2 st, run (es1 ++ es2) st = run es2 (run es1 st).
Proof. intros es1 es2 st. unfold run. apply fold_left_app. Qed.

(** What an event does to the statistics: nothing, one scored answer,
    the reset of [startGame], or a new high score. *)
Lemma step_stats_cases :
  forall e st,
    stats (step e st) = stats st \/
    (exists c, stats (step e st) = applyResult c (stats st)) \/
    (is_start e = true /\ stats (step e st) = resetStats (stats st)) \/
    (e = Tick /\ exists h, stats (step e st) = withHighScore h (stats st)).
Proof.
  intros e st.
  destruct e; cbn [step is_start];
    unfold typeInput, clickSubmit, handleKeyPress, feedbackTimeout, checkAnswer,
      tick, endGame;
    case_handler;
    first [ left; reflexivity
          | right; left; eexists; reflexivity
          | right; right; left; split; reflexivity
          | right; right; right; split; [reflexivity | eexists; reflexivity] ].
Qed.

(** X1. In every reachable state the counters are consistent: the streak
    is between 0 and [maxStreak] and at most [totalCorrect], which is at
    most [totalAnswered], and the score is between 10 points per correct
    answer and that plus the largest possible streak bonus. *)
Theorem reachable_counters :
  forall st, reachable st ->
    0 <= streak (stats st) <= maxStreak (stats st) /\
    streak (stats st) <= totalCorrect (stats st) <= totalAnswered (stats st) /\
    10 * totalCorrect (stats st) <= score (stats st)
      <= 10 * totalCorrect (stats st)
         + totalCorrect (stats st) * (totalCorrect (stats st) - 1).
Proof.
  apply reachable_ind.
  - intros stored. cbn. lia.
  - intros e st IH.
    destruct (step_stats_cases e st) as [E | [[c E] | [[_ E] | [_ [h E]]]]];
      rewrite E; clear E.
    + exact IH.
    + destruct c; cbn [applyResult streak maxStreak totalCorrect totalAnswered score];
        repeat split; nia.
    + cbn [resetStats streak maxStreak totalCorrect totalAnswered score]. lia.
    + exact IH.
Qed.

Lemma reachable_counters_witness :
  0 <= streak (stats (run [ClickStart (1 # 2) (1 # 4); TypeInput (str "128");
                           ClickSubmit] (initialState None)))
    <= maxStreak (stats (run [ClickStart (1 # 2) (1 # 4); TypeInput (str "128");
                              ClickSubmit] (initialState None))).
Proof.
  apply (reachable_counters
           (run [ClickStart (1 # 2) (1 # 4); TypeInput (str "128"); ClickSubmit]
                (initialState None))).
  apply reachable_run.
Defined.

(** X2. The state [paused] is never reached, the duration of a session
    is always 30, and the countdown stays between 0 and 30 and is 0 on
    the game-over screen. *)
Theorem reachable_countdown :
  forall st, reachable st ->
    gameState st <> paused /\
    gameDuration st = 30 /\
    0 <= timeLeft st <= 30 /\
    (gameState st = gameOver -> timeLeft st = 0).
Proof.
  apply reachable_ind.
  - intros stored. cbn. repeat split; (discriminate || lia).
  - intros e st (Hp & Hd & Ht & Ho).
    destruct e; cbn [step];
      unfold typeInput, clickSubmit, handleKeyPress, feedbackTimeout, checkAnswer,
        tick, endGame, is_menu, is_gameOver, is_playing;
      destruct (gameState st) eqn:Eg; try contradiction;
      try (specialize (Ho eq_refl));
      repeat match goal with
             | |- context [Z.ltb ?a ?b] => destruct (Z.ltb_spec a b)
             | |- context [Z.eqb ?a ?b] => destruct (Z.eqb_spec a b)
             end;
      cbn [andb orb negb];
      case_handler; cbn in *;
      repeat split; try discriminate; try lia; try congruence; auto.
Qed.

Lemma reachable_countdown_witness :
  gameState (run (ClickStart (1 # 2) (1 # 4) :: repeat Tick 31)
               (initialState None)) <> paused /\
  gameDuration (run (ClickStart (1 # 2) (1 # 4) :: repeat Tick 31)
                  (initialState None)) = 30.
Proof.
  destruct (reachable_countdown
              (run (ClickStart (1 # 2) (1 # 4) :: repeat Tick 31)
                 (initialState None)) (reachable_run _ _)) as (H1 & H2 & _).
  split; [exact H1 | exact H2].
Defined.

(* ================================================================== *)
(** ** The countdown *)
(* ================================================================== *)

Lemma run_cons : forall e es st, run (e :: es) st = run es (step e st).
Proof. reflexivity. Qed.

(** Once the game is not being played, ticks do nothing. *)
Lemma run_ticks_idle :
  forall k st, is_playing st = false -> run (repeat Tick k) st = st.
Proof.
  induction k as [| k IH]; intros st H; [reflexivity |].
  cbn [repeat]. rewrite run_cons. cbn [step]. unfold tick.
  rewrite H, andb_false_r. cbn [andb]. apply IH, H.
Qed.

(** While time is left, [k] ticks take [k] off the countdown and touch
    nothing else; the tick that reaches 0 ends the game. *)
Lemma run_ticks_playing :
  forall k st,
    gameState st = playing ->
    (Z.of_nat k < timeLeft st ->
     run (repeat Tick k) st = setTimeLeft (timeLeft st - Z.of_nat k) st) /\
    (0 < timeLeft st -> Z.of_nat k = timeLeft st ->
     run (repeat Tick k) st = endGame (setTimeLeft 0 st)).
Proof.
  induction k as [| k IH]; intros st Hg.
  - split.
    + intros _. cbn [Z.of_nat]. rewrite Z.sub_0_r. destruct st; reflexivity.
    + intros H0 H. cbn [Z.of_nat] in H. lia.
  - cbn [repeat]. rewrite run_cons. cbn [step]. unfold tick, is_playing.
    rewrite Hg. cbn [andb]. split.
    + intros Hk. destruct (Z.ltb_spec 0 (timeLeft st)); [| lia].
      cbn [setTimeLeft timeLeft].
      destruct (Z.eqb_spec (timeLeft st - 1) 0); [lia |].
      destruct (IH (setTimeLeft (timeLeft st - 1) st) Hg) as [IH1 _].
      rewrite IH1 by (cbn; lia). cbn [setTimeLeft timeLeft].
      replace (timeLeft st - 1 - Z.of_nat k) with (timeLeft st - Z.of_nat (S k))
        by lia.
      reflexivity.
    + intros H0 Hk. destruct (Z.ltb_spec 0 (timeLeft st)); [| lia].
      cbn [setTimeLeft timeLeft].
      destruct (Z.eqb_spec (timeLeft st - 1) 0) as [E | E].
      * rewrite E. apply run_ticks_idle. unfold endGame. case_handler; reflexivity.
      * destruct (IH (setTimeLeft (timeLeft st - 1) st) Hg) as [_ IH2].
        rewrite IH2 by (cbn; lia). reflexivity.
Qed.

(** X3. A session lasts exactly [gameDuration] ticks: after [startGame],
    [k] ticks with [k] below the duration leave the game playing with
    the countdown at the duration minus [k], and as many ticks as the
    duration, or more, leave it over with the countdown at 0. *)
Theorem session_lasts_gameDuration :
  forall (st : State) (r1 r2 : Q) (k : nat),
    0 < gameDuration st ->
    let s := run (repeat Tick k) (startGame r1 r2 st) in
    (Z.of_nat k < gameDuration st ->
     gameState s = playing /\ timeLeft s = gameDuration st - Z.of_nat k) /\
    (gameDuration st <= Z.of_nat k ->
     gameState s = gameOver /\ timeLeft s = 0).
Proof.
  intros st r1 r2 k Hd s. subst s.
  set (s0 := startGame r1 r2 st).
  assert (Hg : gameState s0 = playing) by reflexivity.
  assert (Ht : timeLeft s0 = gameDuration st) by reflexivity.
  split.
  - intros Hk. destruct (run_ticks_playing k s0 Hg) as [H1 _].
    rewrite H1 by lia. cbn [setTimeLeft gameState timeLeft]. rewrite Ht.
    split; reflexivity.
  - intros Hk.
    replace k with (Z.to_nat (gameDuration st) + (k - Z.to_nat (gameDuration st)))%nat
      by lia.
    rewrite repeat_app, run_app.
    destruct (run_ticks_playing (Z.to_nat (gameDuration st)) s0 Hg) as [_ H2].
    rewrite H2 by lia.
    rewrite run_ticks_idle by (unfold endGame; case_handler; reflexivity).
    unfold endGame. case_handler; split; reflexivity.
Qed.

Lemma session_lasts_gameDuration_witness :
  gameState (run (repeat Tick 29) (startGame (1 # 2) (1 # 4) (initialState None)))
    = playing /\
  timeLeft (run (repeat Tick 29) (startGame (1 # 2) (1 # 4) (initialState None)))
    = 30 - 29.
Proof.
  apply (session_lasts_gameDuration (initialState None) (1 # 2) (1 # 4) 29).
  - reflexivity.
  - reflexivity.
Defined.

(* ================================================================== *)
(** ** What a session can and cannot change *)
(* ================================================================== *)

(** X4. On the menu and on the game-over screen nothing but a start
    changes the results: every other event leaves the statistics and the
    stored high score as they are. *)
Theorem results_frozen_outside_play :
  forall (e : Event) (st : State),
    gameState st = menu \/ gameState st = gameOver ->
    is_start e = false ->
    stats (step e st) = stats st /\ storage (step e st) = storage st.
Proof.
  intros e st Hg He.
  destruct e; try discriminate He; cbn [step];
    unfold typeInput, clickSubmit, handleKeyPress, feedbackTimeout, tick,
      is_menu, is_gameOver, is_playing;
    destruct Hg as [Hg | Hg]; rewrite ?Hg;
    rewrite ?andb_false_r; cbn [andb];
    case_handler; split; reflexivity.
Qed.

Lemma results_frozen_outside_play_witness :
  stats (step (KeyPress (str "Enter")) (endGame (session_ending 80)))
  = stats (endGame (session_ending 80)).
Proof.
  apply (results_frozen_outside_play (KeyPress (str "Enter"))
           (endGame (session_ending 80))).
  - right. reflexivity.
  - reflexivity.
Defined.

(** X5. The mode and the difficulty can only be changed on the menu:
    in any other state no event changes them. *)
Theorem configuration_fixed_off_menu :
  forall (e : Event) (st : State),
    gameState st <> menu ->
    gameMode (step e st) = gameMode st /\
    difficulty (step e st) = difficulty st.
Proof.
  intros e st Hg.
  destruct e; cbn [step];
    unfold typeInput, clickSubmit, handleKeyPress, feedbackTimeout, checkAnswer,
      tick, endGame, is_menu, is_gameOver;
    destruct (gameState st); try contradiction;
    case_handler; split; reflexivity.
Qed.

Lemma configuration_fixed_off_menu_witness :
  gameMode (step (SelectMode binary_to_decimal)
              (startGame (1 # 2) (1 # 4) (initialState None)))
  = gameMode (startGame (1 # 2) (1 # 4) (initialState None)).
Proof.
  apply (configuration_fixed_off_menu (SelectMode binary_to_decimal)
           (startGame (1 # 2) (1 # 4) (initialState None))).
  discriminate.
Defined.

(** X6. Within a session nothing is taken back: for an event that is
    not a start, in a state with a non-negative streak, the score, the
    number of answers, the number of correct answers and [maxStreak] do
    not decrease, and at most one answer is counted. *)
Theorem session_counters_monotone :
  forall (e : Event) (st : State),
    is_start e = false ->
    0 <= streak (stats st) ->
    score (stats st) <= score (stats (step e st)) /\
    totalCorrect (stats st) <= totalCorrect (stats (step e st)) /\
    totalAnswered (stats st) <= totalAnswered (stats (step e st))
      <= totalAnswered (stats st) + 1 /\
    maxStreak (stats st) <= maxStreak (stats (step e st)).
Proof.
  intros e st He Hs.
  destruct (step_stats_cases e st) as [E | [[c E] | [[E0 _] | [_ [h E]]]]].
  - rewrite E. lia.
  - rewrite E. destruct c;
      cbn [applyResult score totalCorrect totalAnswered maxStreak streak]; lia.
  - congruence.
  - rewrite E. cbn [withHighScore score totalCorrect totalAnswered maxStreak]. lia.
Qed.

Lemma session_counters_monotone_witness :
  score (stats (run [ClickStart (1 # 2) (3 # 4); TypeInput (str "128");
                     ClickSubmit; FeedbackTimeout (1 # 2) (3 # 4);
                     TypeInput (str "128")] (initialState None))) = 10 /\
  score (stats (step ClickSubmit
                  (run [ClickStart (1 # 2) (3 # 4); TypeInput (str "128");
                        ClickSubmit; FeedbackTimeout (1 # 2) (3 # 4);
                        TypeInput (str "128")] (initialState None)))) = 22 /\
  score (stats (run [ClickStart (1 # 2) (3 # 4); TypeInput (str "128");
                     ClickSubmit; FeedbackTimeout (1 # 2) (3 # 4);
                     TypeInput (str "128")] (initialState None)))
  <= score (stats (step ClickSubmit
                     (run [ClickStart (1 # 2) (3 # 4); TypeInput (str "128");
                           ClickSubmit; FeedbackTimeout (1 # 2) (3 # 4);
                           TypeInput (str "128")] (initialState None)))).
Proof.
  split; [vm_compute; reflexivity |].
  split; [vm_compute; reflexivity |].
  apply (session_counters_monotone ClickSubmit
           (run [ClickStart (1 # 2) (3 # 4); TypeInput (str "128");
                 ClickSubmit; FeedbackTimeout (1 # 2) (3 # 4);
                 TypeInput (str "128")] (initialState None))).
  - reflexivity.
  - vm_compute. discriminate.
Defined.

(** X7. A run of [n] correct answers from a streak [k] adds
    [10 n + 2 k n + n (n - 1)] to the score and [n] to the streak and to
    both counters; from a fresh streak the score gained is
    [10 n + n (n - 1)]. *)
Theorem correct_run_score :
  forall (n : nat) (s : GameStats),
    let s' := applyResults (repeat true n) s in
    let m := Z.of_nat n in
    score s' = score s + 10 * m + 2 * streak s * m + m * (m - 1) /\
    streak s' = streak s + m /\
    totalCorrect s' = totalCorrect s + m /\
    totalAnswered s' = totalAnswered s + m.
Proof.
  unfold applyResults.
  induction n as [| n IH]; intros s.
  - cbn. lia.
  - cbn [repeat fold_left].
    destruct (IH (applyResult true s)) as (Hsc & Hst & Htc & Hta).
    cbv zeta. rewrite Hsc, Hst, Htc, Hta.
    cbn [applyResult score streak totalCorrect totalAnswered]. nia.
Qed.

(** X8. One incorrect answer ends the streak and keeps what was earned:
    after any run of answers followed by an incorrect one the streak is
    0, and the score and [maxStreak] are those before the incorrect
    answer. *)
Theorem incorrect_answer_keeps_score :
  forall (answers : list bool) (s : GameStats),
    0 <= streak s <= maxStreak s ->
    let before := applyResults answers s in
    let after := applyResults (answers ++ [false]) s in
    streak after = 0 /\
    score after = score before /\
    maxStreak after = maxStreak before /\
    totalCorrect after = totalCorrect before.
Proof.
  intros answers s Hs before after. subst before after.
  unfold applyResults. rewrite fold_left_app. cbn [fold_left].
  fold (applyResults answers s).
  assert (H : 0 <= maxStreak (applyResults answers s)).
  { unfold applyResults. revert s Hs.
    induction answers as [| c rest IH]; intros s Hs; [cbn; lia |].
    cbn [fold_left]. apply IH.
    destruct c; cbn [applyResult streak maxStreak]; lia. }
  cbn [applyResult streak score maxStreak totalCorrect].
  repeat split; lia.
Qed.

Lemma incorrect_answer_keeps_score_witness :
  streak (applyResults ([true; true; true] ++ [false]) (initialStats None)) = 0 /\
  score (applyResults ([true; true; true] ++ [false]) (initialStats None))
  = score (applyResults [true; true; true] (initialStats None)).
Proof.
  destruct (incorrect_answer_keeps_score [true; true; true] (initialStats None))
    as (H1 & H2 & _).
  - cbn. lia.
  - split; [exact H1 | exact H2].
Defined.

(* ================================================================== *)
(** ** Binary answers and the binary display *)
(* ================================================================== *)

Lemma replaceNon01_chars :
  forall s, Forall (fun c => c = 48%N \/ c = 49%N) (replaceNon01 s).
Proof.
  intros s. unfold replaceNon01. apply Forall_forall. intros c Hc.
  apply filter_In in Hc. destruct Hc as [_ Hc].
  apply orb_prop in Hc. destruct Hc as [Hc | Hc]; apply N.eqb_eq in Hc; auto.
Qed.

Lemma binary_chars_digits :
  forall s, Forall (fun c => c = 48%N \/ c = 49%N) s ->
    s = map digit_char (map bit_of s) /\ Forall (in_radix 2) (map bit_of s).
Proof.
  intros s H. induction H as [| c t Hc _ [IH1 IH2]]; [split; constructor |].
  cbn [map]. split.
  - rewrite <- IH1. destruct Hc as [-> | ->]; reflexivity.
  - constructor; [| exact IH2]. unfold in_radix, bit_of.
    destruct (c =? 49)%N; lia.
Qed.

Lemma mathInt_bits :
  forall s, mathInt 2 (map bit_of s) = binary_value s.
Proof.
  intros s. unfold mathInt, binary_value.
  enough (H : forall acc,
             fold_left (fun a d => a * 2 + d) (map bit_of s) acc
             = fold_left (fun a c => a * 2 + (if (c =? 49)%N then 1 else 0)) s acc)
    by apply H.
  induction s as [| c t IH]; intros acc; [reflexivity |].
  cbn [map fold_left]. apply IH.
Qed.

Lemma bit_of_digit_char :
  forall ds, Forall (in_radix 2) ds -> map bit_of (map digit_char ds) = ds.
Proof.
  intros ds H. induction H as [| d t Hd _ IH]; [reflexivity |].
  cbn [map]. rewrite IH. f_equal.
  assert (Hc : d = 0 \/ d = 1) by (unfold in_radix in Hd; lia).
  destruct Hc as [-> | ->]; reflexivity.
Qed.

(** The binary display denotes the number it formats. *)
Lemma binary_value_formatBinary :
  forall d v, 0 <= v -> binary_value (formatBinary d v) = v.
Proof.
  intros d v Hv. destruct (formatBinary_digits d v Hv) as [k Hk].
  destruct (int_nums_spec v 2) as (_ & Hall & Hval); try lia.
  rewrite Hk, <- mathInt_bits, bit_of_digit_char.
  - rewrite mathInt_zeros. exact Hval.
  - apply Forall_app; split; [apply Forall_zeros; lia | exact Hall].
Qed.

(** X9. The decimal-to-binary validator: an answer is correct exactly
    when it has at least one character '0' or '1' and those characters,
    read as a binary numeral, give the value of the round; every other
    character of the answer is ignored, and so are leading zeros. *)
Theorem isCorrect_binary_iff :
  forall (input : jsstring) (num : Z),
    isCorrect DecimalToBinary input num = true
    <-> replaceNon01 input <> [] /\ binary_value (replaceNon01 input) = num.
Proof.
  intros input num. unfold isCorrect. rewrite strict_eq_Int.
  destruct (binary_chars_digits _ (replaceNon01_chars input)) as [Hs Hall].
  destruct (replaceNon01 input) as [| c t] eqn:E.
  - rewrite parseInt_empty. split; [discriminate | intros [H _]; contradiction].
  - assert (Hp : parseInt (c :: t) (Some 2) = Int (binary_value (c :: t))).
    { rewrite Hs at 1. rewrite (parseInt_numeral (Some 2) 2); try (exact Hall || lia).
      - rewrite mathInt_bits. reflexivity.
      - left. repeat split; lia.
      - discriminate. }
    rewrite Hp. split.
    + intros H. inversion H. split; [discriminate | reflexivity].
    + intros [_ H]. rewrite H. reflexivity.
Qed.

Lemma bitCells_spec :
  forall s i,
    List.length (bitCells i s) = List.length s /\
    map cell_key (bitCells i s) = seq i (List.length s) /\
    map cell_bit (bitCells i s) = s /\
    cells_value (bitCells i s) = binary_value s.
Proof.
  unfold cells_value, binary_value.
  enough (H : forall s i acc,
             List.length (bitCells i s) = List.length s /\
             map cell_key (bitCells i s) = seq i (List.length s) /\
             map cell_bit (bitCells i s) = s /\
             fold_left (fun a c => a * 2 + (if cell_lit c then 1 else 0))
               (bitCells i s) acc
             = fold_left (fun a c => a * 2 + (if (c =? 49)%N then 1 else 0)) s acc)
    by (intros s i; apply H).
  induction s as [| c t IH]; intros i acc; [repeat split |].
  cbn [bitCells List.length map seq fold_left cell_key cell_bit cell_lit].
  destruct (IH (S i) (acc * 2 + (if (c =? 49)%N then 1 else 0)))
    as (H1 & H2 & H3 & H4).
  rewrite H1, H2, H3, H4. repeat split.
Qed.

(** X10. The row of bits of a round whose value fits the bit width: it
    has one cell per bit of the width, keyed 0, 1, 2, ..., every cell
    shows '0' or '1' and is lit exactly when it shows '1', and the lit
    cells, read as a binary numeral, give the value of the round. *)
Theorem getBinaryDisplay_spec :
  forall st : State,
    0 <= currentNumber st <= maxValue (difficulty st) ->
    let cells := getBinaryDisplay st in
    Z.of_nat (List.length cells) = bits (difficulty st) /\
    map cell_key cells = seq 0 (List.length cells) /\
    Forall (fun c => (cell_bit c = 48%N /\ cell_lit c = false) \/
                     (cell_bit c = 49%N /\ cell_lit c = true)) cells /\
    cells_value cells = currentNumber st.
Proof.
  intros st Hv cells. subst cells. unfold getBinaryDisplay.
  set (s := formatBinary (difficulty st) (currentNumber st)).
  destruct (bitCells_spec s 0%nat) as (H1 & H2 & H3 & H4).
  split; [rewrite H1; apply formatBinary_length, Hv |].
  split; [rewrite H1; exact H2 |].
  split; [| rewrite H4; apply binary_value_formatBinary; lia].
  assert (Hchars : Forall (fun c => c = 48%N \/ c = 49%N) s).
  { subst s. destruct (formatBinary_digits (difficulty st) (currentNumber st)
                         ltac:(lia)) as [k Hk].
    destruct (int_nums_spec (currentNumber st) 2) as (_ & Hall & _); try lia.
    rewrite Hk, <- (replaceNon01_binary (repeat 0 k ++ int_nums (currentNumber st) 2)).
    - apply replaceNon01_chars.
    - apply Forall_app; split; [apply Forall_zeros; lia | exact Hall]. }
  clear H1 H2 H3 H4 Hv. generalize 0%nat.
  induction Hchars as [| c t Hc _ IH]; intros i; cbn [bitCells]; constructor.
  - cbn [cell_bit cell_lit]. destruct Hc as [-> | ->]; [left | right]; split; reflexivity.
  - apply IH.
Qed.

Lemma getBinaryDisplay_spec_witness :
  cells_value (getBinaryDisplay
                 (setCurrentNumber 202 (initialState None))) = 202.
Proof.
  apply (getBinaryDisplay_spec (setCurrentNumber 202 (initialState None))).
  vm_compute. split; discriminate.
Defined.

(** X11. Different values are formatted differently: the binary display
    determines the number. *)
Theorem formatBinary_injective :
  forall (d : Difficulty) (v w : Z),
    0 <= v -> 0 <= w -> v <> w ->
    formatBinary d v <> formatBinary d w.
Proof.
  intros d v w Hv Hw Hne H. apply Hne.
  rewrite <- (binary_value_formatBinary d v Hv), H.
  apply binary_value_formatBinary, Hw.
Qed.

Lemma formatBinary_injective_witness :
  formatBinary D4 5 <> formatBinary D4 6.
Proof.
  apply (formatBinary_injective D4 5 6); discriminate.
Defined.

(** X12. The canonical decimal numeral of a number is accepted in a
    binary-to-decimal round of that value and in no round of another
    value. *)
Theorem isCorrect_decimal_numeral :
  forall v num : Z,
    isCorrect BinaryToDecimal (int_toString v 10) num = true <-> v = num.
Proof.
  intros v num. unfold isCorrect.
  rewrite strict_eq_Int, parseInt_toString.
  split; [intros H; inversion H; reflexivity | intros ->; reflexivity].
Qed.

(* ================================================================== *)
(** ** What the screens show *)
(* ================================================================== *)

(** X13. On the game-over screen, with a numeric previous high score
    [h], the "new high score" banner is shown exactly when the final
    score is positive and at least [h]: a final score equal to the
    previous high score shows the banner too. *)
Theorem newHighScoreBanner_after_endGame :
  forall (st : State) (h : Z),
    highScore (stats st) = Int h ->
    newHighScoreBanner (stats (endGame st))
    = (h <=? score (stats st)) && (0 <? score (stats st)).
Proof.
  intros st h Hh. unfold endGame. rewrite Hh. cbn [math_max gt].
  destruct (Z.ltb_spec h (Z.max (score (stats st)) h)) as [Hlt | Hge].
  - unfold newHighScoreBanner.
    cbn [setStats setItem setGameState stats withHighScore score highScore
         strict_eq gt].
    destruct (Z.eqb_spec (score (stats st)) (Z.max (score (stats st)) h));
      destruct (Z.leb_spec h (score (stats st))); try lia; reflexivity.
  - unfold newHighScoreBanner. cbn [setGameState stats]. rewrite Hh.
    cbn [strict_eq gt].
    destruct (Z.eqb_spec (score (stats st)) h);
      destruct (Z.leb_spec h (score (stats st))); try lia; reflexivity.
Qed.

Lemma newHighScoreBanner_after_endGame_witness :
  newHighScoreBanner (stats (endGame (session_ending 50)))
  = (50 <=? score (stats (session_ending 50)))
    && (0 <? score (stats (session_ending 50))).
Proof.
  apply (newHighScoreBanner_after_endGame (session_ending 50) 50).
  reflexivity.
Defined.

(** X14. After an answer validated as correct, the points printed in
    the streak line are the points the answer earned, and the line is
    shown exactly when the streak before the answer was at least 1. *)
Theorem streakLine_after_correct :
  forall st : State,
    truthy (trim (userInput st)) = true ->
    isCorrect (currentMode st) (userInput st) (currentNumber st) = true ->
    streakLinePoints (stats (checkAnswer st))
    = score (stats (checkAnswer st)) - score (stats st) /\
    streakLineShown (checkAnswer st) = (0 <? streak (stats st)).
Proof.
  intros st Ht Hc. unfold checkAnswer. rewrite Ht, Hc. cbn [negb].
  unfold streakLinePoints, streakLineShown.
  cbn [setTimeouts setStats setFeedback stats feedback applyResult streak score].
  split; [lia |].
  destruct (Z.ltb_spec 1 (streak (stats st) + 1));
    destruct (Z.ltb_spec 0 (streak (stats st))); try lia; reflexivity.
Qed.

Lemma streakLine_after_correct_witness :
  streakLinePoints
    (stats (checkAnswer (setUserInput (str "0") (initialState None))))
  = score (stats (checkAnswer (setUserInput (str "0") (initialState None))))
    - score (stats (setUserInput (str "0") (initialState None))).
Proof.
  apply (streakLine_after_correct (setUserInput (str "0") (initialState None))).
  - reflexivity.
  - reflexivity.
Defined.

(* ================================================================== *)
(** ** The high score across events and reloads *)
(* ================================================================== *)

(** X15. Reloading keeps the high score: in every reachable state, a
    component constructed from the storage as it is starts with the high
    score the running component has in memory. *)
Theorem reload_keeps_highScore :
  forall st : State,
    reachable st ->
    highScore (stats (initialState (storage st))) = highScore (stats st).
Proof.
  intros st H. exact (reachable_in_sync st H).
Qed.

Lemma reload_keeps_highScore_witness :
  highScore
    (stats (initialState
              (storage (run (ClickStart (1 # 2) (1 # 4) :: repeat Tick 30)
                          (initialState (Some (str "50")))))))
  = highScore
      (stats (run (ClickStart (1 # 2) (1 # 4) :: repeat Tick 30)
                (initialState (Some (str "50"))))).
Proof.
  apply (reload_keeps_highScore
           (run (ClickStart (1 # 2) (1 # 4) :: repeat Tick 30)
              (initialState (Some (str "50"))))).
  apply reachable_run.
Defined.

(** X16. Along any sequence of events a numeric high score stays numeric
    and never decreases. *)
Theorem run_highScore_mono :
  forall (es : list Event) (st : State) (h : Z),
    highScore (stats st) = Int h ->
    exists h', highScore (stats (run es st)) = Int h' /\ h <= h'.
Proof.
  induction es as [| e es IH]; intros st h Hh.
  - exists h. split; [exact Hh | lia].
  - rewrite run_cons.
    destruct (step_highScore_mono e st h Hh) as (h1 & H1 & Hle1).
    destruct (IH (step e st) h1 H1) as (h2 & H2 & Hle2).
    exists h2. split; [exact H2 | lia].
Qed.

Lemma run_highScore_mono_witness :
  exists h',
    highScore (stats (run [Tick; ClickPlayAgain (1 # 2) (1 # 4); Tick]
                        (session_ending 80))) = Int h' /\ 50 <= h'.
Proof.
  apply (run_highScore_mono [Tick; ClickPlayAgain (1 # 2) (1 # 4); Tick]
           (session_ending 80) 50).
  reflexivity.
Defined.

(** X17. Ending the game twice is ending it once: a second [endGame]
    changes neither the state nor the storage. *)
Theorem endGame_idempotent :
  forall st : State, endGame (endGame st) = endGame st.
Proof.
  intros st. unfold endGame at 2 3.
  destruct (highScore (stats st)) as [| h] eqn:Eh; cbn [math_max gt].
  - unfold endGame. cbn [setGameState stats]. rewrite Eh. reflexivity.
  - destruct (Z.ltb_spec h (Z.max (score (stats st)) h)) as [Hlt | Hge].
    + unfold endGame.
      cbn [setStats setItem setGameState stats withHighScore score highScore
           math_max gt].
      destruct (Z.ltb_spec (Z.max (score (stats st)) h)
                  (Z.max (score (stats st)) (Z.max (score (stats st)) h)));
        [lia | reflexivity].
    + unfold endGame. cbn [setGameState stats]. rewrite Eh. cbn [math_max gt].
      destruct (Z.ltb_spec h (Z.max (score (stats st)) h)); [lia | reflexivity].
Qed.

(* ================================================================== *)
(** ** Feedback, pending callbacks and rounds *)
(* ================================================================== *)

(** X18. The answer box cannot stay locked: in every reachable state in
    which feedback is shown, a callback that clears it is pending. *)
Theorem feedback_has_pending_timeout :
  forall st : State,
    reachable st -> feedback st <> None -> timeouts st <> [].
Proof.
  apply (reachable_ind (fun st => feedback st <> None -> timeouts st <> [])).
  - intros stored H. contradiction H. reflexivity.
  - intros e st IH.
    destruct e; cbn [step];
      unfold typeInput, clickSubmit, handleKeyPress, feedbackTimeout, checkAnswer,
        tick, endGame, resetGame;
      case_handler_eq;
      cbn [feedback timeouts setGameState setGameMode setDifficulty setTimeLeft
           setCurrentNumber setCurrentMode setUserInput setFeedback setStats
           setItem setTimeouts startGame generateNewNumber generateNewNumberWith];
      try exact IH;
      try (intros H; congruence);
      try (intros H; apply IH; congruence);
      try (intros _ H; apply app_eq_nil in H; destruct H; discriminate);
      try (intros H; exfalso; apply (IH H); reflexivity).
Qed.

Lemma feedback_has_pending_timeout_witness :
  timeouts (run [ClickStart (0 # 1) (3 # 4); TypeInput (str "0"); ClickSubmit]
              (initialState None)) <> [].
Proof.
  apply (feedback_has_pending_timeout
           (run [ClickStart (0 # 1) (3 # 4); TypeInput (str "0"); ClickSubmit]
              (initialState None))).
  - apply reachable_run.
  - discriminate.
Defined.

Lemma maxValue_le_4095 : forall d, maxValue d <= 4095.
Proof. intros []; vm_compute; discriminate. Qed.

(** X19. Whatever the events, as long as the draws are draws of
    [Math.random()], the value of the round is an integer from 0 to
    4095, the largest value of the largest bit width. *)
Theorem currentNumber_bounded :
  forall (stored : option jsstring) (es : list Event),
    Forall valid_event es ->
    0 <= currentNumber (run es (initialState stored)) <= 4095.
Proof.
  intros stored es Hes.
  assert (H0 : 0 <= currentNumber (initialState stored) <= 4095) by (cbn; lia).
  revert H0. generalize (initialState stored).
  induction Hes as [| e es He _ IH]; intros st Hst; [exact Hst |].
  rewrite run_cons. apply IH.
  assert (Hnew : forall d r, valid_draw r -> 0 <= newNumber d r <= 4095).
  { intros d r [Hr0 Hr1]. pose proof (newNumber_range d r Hr0 Hr1).
    pose proof (maxValue_le_4095 d). lia. }
  destruct e; cbn [step valid_event] in *;
    unfold typeInput, clickSubmit, handleKeyPress, feedbackTimeout, checkAnswer,
      tick, endGame, resetGame, startGame, generateNewNumber,
      generateNewNumberWith;
    case_handler;
    cbn [currentNumber setGameState setGameMode setDifficulty setTimeLeft
         setCurrentNumber setCurrentMode setUserInput setFeedback setStats
         setItem setTimeouts];
    try exact Hst; apply Hnew; apply He.
Qed.

Lemma currentNumber_bounded_witness :
  0 <= currentNumber
         (run [SelectDifficulty D12; ClickStart (4095 # 4096) (3 # 4)]
            (initialState None)) <= 4095.
Proof.
  apply (currentNumber_bounded None
           [SelectDifficulty D12; ClickStart (4095 # 4096) (3 # 4)]).
  repeat constructor; vm_compute; discriminate || reflexivity.
Defined.

(** X20. An input of white space only is never scored: neither a click
    on the submit button nor any key changes the state. *)
Theorem blank_input_not_submitted :
  forall (st : State) (key : jsstring),
    forallb is_white (userInput st) = true ->
    step ClickSubmit st = st /\ step (KeyPress key) st = st.
Proof.
  intros st key Hw.
  assert (Ht : truthy (trim (userInput st)) = false).
  { rewrite truthy_trim. clear key. induction (userInput st) as [| c t IH];
      [reflexivity |].
    cbn [forallb] in Hw. apply andb_prop in Hw. destruct Hw as [Hc Hrest].
    cbn [existsb]. unfold not_white at 1. rewrite Hc. apply IH, Hrest. }
  cbn [step]. unfold clickSubmit, submitDisabled, handleKeyPress.
  rewrite Ht, andb_false_r. cbn [negb orb].
  split; [destruct (gameState st); reflexivity | reflexivity].
Qed.

Lemma blank_input_not_submitted_witness :
  step ClickSubmit
    (setUserInput (str "   ") (startGame (1 # 2) (1 # 4) (initialState None)))
  = setUserInput (str "   ") (startGame (1 # 2) (1 # 4) (initialState None)).
Proof.
  apply (blank_input_not_submitted
           (setUserInput (str "   ") (startGame (1 # 2) (1 # 4) (initialState None)))
           (str "Enter")).
  reflexivity.
Defined.

(** X21. Every value of the range can be drawn: for each bit width and
    each [v] from 0 to 2^bitWidth - 1 some draw of [Math.random()] makes
    the generator produce [v]. *)
Theorem newNumber_surjective :
  forall (d : Difficulty) (v : Z),
    0 <= v <= maxValue d ->
    exists r : Q, valid_draw r /\ newNumber d r = v.
Proof.
  intros d v Hv. exists (v # Z.to_pos (maxValue d + 1)). split.
  - pose proof (maxValue_succ_pos d) as Hm. unfold valid_draw, Qle, Qlt.
    cbn [Qnum Qden]. rewrite Z2Pos.id by exact Hm. lia.
  - apply newNumber_onto, Hv.
Qed.

Lemma newNumber_surjective_witness :
  exists r : Q, valid_draw r /\ newNumber D8 r = 255.
Proof.
  apply (newNumber_surjective D8 255). vm_compute. split; discriminate.
Defined.

(** X22. One answer and its callback: from an unlocked state with no
    callback pending, a non-blank answer followed by the callback leaves
    the box unlocked and empty with no callback pending, the statistics
    updated once with the verdict of the validator, and a new round
    whose value fits the bit width and whose direction is that of the
    game mode when the mode is not mixed. *)
Theorem answer_then_timeout :
  forall (st : State) (r1 r2 : Q),
    timeouts st = [] ->
    truthy (trim (userInput st)) = true ->
    valid_draw r1 ->
    let st' := feedbackTimeout r1 r2 (checkAnswer st) in
    feedback st' = None /\ userInput st' = [] /\ timeouts st' = [] /\
    stats st'
    = applyResult (isCorrect (currentMode st) (userInput st) (currentNumber st))
        (stats st) /\
    0 <= currentNumber st' <= maxValue (difficulty st) /\
    currentMode st' = newMode (gameMode st) r2.
Proof.
  intros st r1 r2 Hto Ht [Hr0 Hr1] st'. subst st'.
  unfold checkAnswer. rewrite Ht. cbn [negb].
  unfold feedbackTimeout.
  cbn [setTimeouts setStats setFeedback timeouts]. rewrite Hto. cbn [app].
  repeat split; try reflexivity; apply (newNumber_range (difficulty st) r1 Hr0 Hr1).
Qed.

Lemma answer_then_timeout_witness :
  feedback (feedbackTimeout (1 # 2) (1 # 4)
              (checkAnswer (setUserInput (str "7") (initialState None)))) = None.
Proof.
  apply (answer_then_timeout (setUserInput (str "7") (initialState None))
           (1 # 2) (1 # 4)).
  - reflexivity.
  - reflexivity.
  - split; vm_compute; discriminate || reflexivity.
Defined.

Lemma str_eqb_eq : forall a b, str_eqb a b = true <-> a = b.
Proof.
  induction a as [| x a IH]; intros [| y b]; cbn [str_eqb];
    try (split; [discriminate | discriminate]); [split; reflexivity |].
  rewrite andb_true_iff, N.eqb_eq, IH. split.
  - intros [-> ->]. reflexivity.
  - intros H. inversion H. split; reflexivity.
Qed.

(** X23. Only the Enter key submits: a press of any other key leaves
    the state as it is. *)
Theorem other_keys_ignored :
  forall (key : jsstring) (st : State),
    key <> str "Enter" -> step (KeyPress key) st = st.
Proof.
  intros key st Hk. cbn [step]. unfold handleKeyPress.
  destruct (str_eqb key (str "Enter")) eqn:E; [| reflexivity].
  apply str_eqb_eq in E. contradiction.
Qed.

Lemma other_keys_ignored_witness :
  step (KeyPress (str "a"))
    (setUserInput (str "5") (startGame (1 # 2) (1 # 4) (initialState None)))
  = setUserInput (str "5") (startGame (1 # 2) (1 # 4) (initialState None)).
Proof.
  apply (other_keys_ignored (str "a")). discriminate.
Defined.

(** X24. The value of the round is not tied to the bit width of the
    session being played: a callback scheduled by an answer of one
    session (12 bits) that runs after the next session (4 bits) has
    started draws with the bit width of the session that scheduled it,
    so that a state is reached, with draws of [Math.random()] only, in
    which the game is playing and the value of the round exceeds
    2^bitWidth - 1. *)
Theorem round_value_can_exceed_bit_width :
  exists es : list Event,
    Forall valid_event es /\
    gameState (run es (initialState None)) = playing /\
    maxValue (difficulty (run es (initialState None)))
    < currentNumber (run es (initialState None)).
Proof.
  exists ([SelectDifficulty D12; ClickStart (0 # 1) (0 # 1); TypeInput (str "0")]
          ++ repeat Tick 29
          ++ [ClickSubmit; Tick; ClickBackToMenu; SelectDifficulty D4;
              ClickStart (0 # 1) (0 # 1); FeedbackTimeout (4095 # 4096) (0 # 1)]).
  split.
  - repeat (apply Forall_app; split);
      repeat constructor; vm_compute; discriminate || reflexivity.
  - vm_compute. split; reflexivity.
Qed.
